(** * Session store and map-action queue of the GeoGPT / ApexGIS front end

    A shallow embedding of the zustand store ([store.ts], the first document
    of [src/unnamed/part_001]), of the chat transport wrapper [geoApi.chat]
    ([src/frontend/src/api.ts]) and of the map-action observer of
    [src/frontend/src/components/MapView.tsx], followed by the properties
    claimed about them.

    Conventions of the embedding:
    - a zustand [set(partial)] is a function [AppState -> AppState] that
      rebuilds the record with the written fields replaced;
    - JS numbers are only stored, copied and tested for falsiness by the
      modelled code (no arithmetic), so rationals stand for them;
    - [Date.now()] is an input: every operation that reads the clock takes
      the current time in milliseconds as an argument;
    - values typed [any] in the source are JSON values;
    - an [async] function is cut at its [await]: the part before it, and the
      part after it, which receives the way the awaited promise settled. *)

From Stdlib Require Import QArith.
From stdpp Require Import base list strings pretty gmap sets.

Local Open Scope string_scope.
Local Open Scope list_scope.

(** ** JavaScript values *)

Definition number := Q.

(** [!x] on a number that came from JSON: only zero is falsy. *)
Definition falsy (x : number) : bool := Qeq_bool x 0%Q.

(** [x || d] where [x] is an optional numeric field ([undefined] is falsy). *)
Definition or_default (x : option number) (d : number) : number :=
  match x with
  | Some v => if falsy v then d else v
  | None => d
  end.

Unset Elimination Schemes.
Inductive any : Type :=
  | JNull
  | JBool (b : bool)
  | JNum (x : number)
  | JStr (s : string)
  | JArr (xs : list any)
  | JObj (fields : list (string * any)).
Set Elimination Schemes.

(** The double-quote character, for string literals that contain it. *)
Definition dq : string := String (Ascii.ascii_of_nat 34) EmptyString.

(** ** Data model ([store.ts], interfaces) *)

Module MapLayer.
Record t := mk {
  id : string;
  name : string;
  type : string;
  visible : bool;
  opacity : number;
  source : any;
  paint : option any;
  deckLayer : option any
}.
End MapLayer.

Module ChartData.
Record t := mk {
  type : string;
  title : string;
  labels : list any;
  datasets : list any
}.
End ChartData.

(** [map_action] of a chat response ([api.ts], [ChatResponse]). A map
    action is an object, and the store's subscriber compares slots with
    [Object.is]: [ref] names the object, so two actions are the same
    object when their [ref]s are equal, whatever their fields hold. *)
Module MapAction.
Record t := mk {
  ref : nat;
  type : string;
  center : option (number * number);
  zoom : option number;
  pitch : option number;
  bearing : option number;
  bounds : option ((number * number) * (number * number));
  duration : option number
}.
End MapAction.

Inductive Role := user | assistant | system.

Module ChatMessage.
Record t := mk {
  id : string;
  role : Role;
  content : string;
  timestamp : Z;
  code : option string;
  mapLayers : option (list MapLayer.t);
  data : option any;
  chart : option ChartData.t;
  mapAction : option MapAction.t
}.
End ChatMessage.

(** [Omit<ChatMessage, 'id' | 'timestamp'>], the argument of [addMessage]. *)
Module NewMessage.
Record t := mk {
  role : Role;
  content : string;
  code : option string;
  mapLayers : option (list MapLayer.t);
  data : option any;
  chart : option ChartData.t;
  mapAction : option MapAction.t
}.
End NewMessage.

Module MapViewState.
Record t := mk {
  longitude : number;
  latitude : number;
  zoom : number;
  pitch : number;
  bearing : number
}.
End MapViewState.

(** [Partial<MapViewState>], the argument of [setViewState]. *)
Module PartialViewState.
Record t := mk {
  longitude : option number;
  latitude : option number;
  zoom : option number;
  pitch : option number;
  bearing : option number
}.
End PartialViewState.

Inductive Panel := chat_panel | layers_panel | data_panel | code_panel.

Record AppState := mkAppState {
  viewState : MapViewState.t;
  layers : list MapLayer.t;
  selectedBasemap : string;
  is3DEnabled : bool;
  pendingMapAction : option MapAction.t;
  messages : list ChatMessage.t;
  isLoading : bool;
  currentChart : option ChartData.t;
  isSidebarOpen : bool;
  activePanel : Panel;
  showCode : bool;
  showChart : bool
}.

(** The ids of a layer list, in render order. *)
Definition layer_ids (ls : list MapLayer.t) : list string := MapLayer.id <$> ls.

(** *** Field writes of [set({...})] *)

Definition with_viewState (v : MapViewState.t) (s : AppState) : AppState :=
  mkAppState v (layers s) (selectedBasemap s) (is3DEnabled s)
    (pendingMapAction s) (messages s) (isLoading s) (currentChart s)
    (isSidebarOpen s) (activePanel s) (showCode s) (showChart s).

Definition with_layers (ls : list MapLayer.t) (s : AppState) : AppState :=
  mkAppState (viewState s) ls (selectedBasemap s) (is3DEnabled s)
    (pendingMapAction s) (messages s) (isLoading s) (currentChart s)
    (isSidebarOpen s) (activePanel s) (showCode s) (showChart s).

Definition with_selectedBasemap (b : string) (s : AppState) : AppState :=
  mkAppState (viewState s) (layers s) b (is3DEnabled s)
    (pendingMapAction s) (messages s) (isLoading s) (currentChart s)
    (isSidebarOpen s) (activePanel s) (showCode s) (showChart s).

Definition with_is3DEnabled (b : bool) (s : AppState) : AppState :=
  mkAppState (viewState s) (layers s) (selectedBasemap s) b
    (pendingMapAction s) (messages s) (isLoading s) (currentChart s)
    (isSidebarOpen s) (activePanel s) (showCode s) (showChart s).

Definition with_pendingMapAction (a : option MapAction.t) (s : AppState) : AppState :=
  mkAppState (viewState s) (layers s) (selectedBasemap s) (is3DEnabled s)
    a (messages s) (isLoading s) (currentChart s)
    (isSidebarOpen s) (activePanel s) (showCode s) (showChart s).

Definition with_messages (ms : list ChatMessage.t) (s : AppState) : AppState :=
  mkAppState (viewState s) (layers s) (selectedBasemap s) (is3DEnabled s)
    (pendingMapAction s) ms (isLoading s) (currentChart s)
    (isSidebarOpen s) (activePanel s) (showCode s) (showChart s).

Definition with_isLoading (b : bool) (s : AppState) : AppState :=
  mkAppState (viewState s) (layers s) (selectedBasemap s) (is3DEnabled s)
    (pendingMapAction s) (messages s) b (currentChart s)
    (isSidebarOpen s) (activePanel s) (showCode s) (showChart s).

Definition with_currentChart (c : option ChartData.t) (s : AppState) : AppState :=
  mkAppState (viewState s) (layers s) (selectedBasemap s) (is3DEnabled s)
    (pendingMapAction s) (messages s) (isLoading s) c
    (isSidebarOpen s) (activePanel s) (showCode s) (showChart s).

Definition with_isSidebarOpen (b : bool) (s : AppState) : AppState :=
  mkAppState (viewState s) (layers s) (selectedBasemap s) (is3DEnabled s)
    (pendingMapAction s) (messages s) (isLoading s) (currentChart s)
    b (activePanel s) (showCode s) (showChart s).

Definition with_activePanel (p : Panel) (s : AppState) : AppState :=
  mkAppState (viewState s) (layers s) (selectedBasemap s) (is3DEnabled s)
    (pendingMapAction s) (messages s) (isLoading s) (currentChart s)
    (isSidebarOpen s) p (showCode s) (showChart s).

Definition with_showCode (b : bool) (s : AppState) : AppState :=
  mkAppState (viewState s) (layers s) (selectedBasemap s) (is3DEnabled s)
    (pendingMapAction s) (messages s) (isLoading s) (currentChart s)
    (isSidebarOpen s) (activePanel s) b (showChart s).

Definition with_showChart (b : bool) (s : AppState) : AppState :=
  mkAppState (viewState s) (layers s) (selectedBasemap s) (is3DEnabled s)
    (pendingMapAction s) (messages s) (isLoading s) (currentChart s)
    (isSidebarOpen s) (activePanel s) (showCode s) b.

(** ** The store ([store.ts], [useAppStore]) *)

(** The welcome message of a fresh store. *)
Definition welcome_content : string :=
  "# 🌍 Welcome to ApexGIS v3.0 - Presidential Platform

I'm your AI assistant for advanced geospatial and environmental analysis. Here's what I can do:

**🌡️ Environmental Monitoring (NEW!):**
- " ++ dq ++ "Show air quality" ++ dq ++ " - Real-time AQI data
- " ++ dq ++ "Show methane emissions" ++ dq ++ " - CH₄ hotspots
- " ++ dq ++ "Show CO2 emissions" ++ dq ++ " - Industrial sources
- " ++ dq ++ "Wind flow" ++ dq ++ " - Animated wind patterns

**🔥 Active Monitoring:**
- " ++ dq ++ "Show fires" ++ dq ++ " - NASA FIRMS fire detection
- " ++ dq ++ "Temperature map" ++ dq ++ " - ERA5 temperature data
- " ++ dq ++ "Environmental dashboard" ++ dq ++ " - All data overview

**📍 City Navigation:**
- " ++ dq ++ "Show me Astana" ++ dq ++ " / " ++ dq ++ "Zoom to Almaty" ++ dq ++ "
- " ++ dq ++ "Go to Shymkent" ++ dq ++ "

**💧 Hydrology:**
- " ++ dq ++ "Glaciers near Almaty" ++ dq ++ "
- " ++ dq ++ "Rivers near Almaty" ++ dq ++ "
- " ++ dq ++ "Show all water bodies" ++ dq ++ "

**📊 Data Analysis:**
- " ++ dq ++ "Population of Almaty" ++ dq ++ "
- " ++ dq ++ "Compare Astana vs Almaty" ++ dq ++ "
- " ++ dq ++ "Show all cities" ++ dq ++ "

*Data Sources: OpenAQ, Sentinel-5P, NASA FIRMS, ERA5*
Currently tracking environmental data across Kazakhstan 🇰🇿".

(** The state the store is created with; [now] is the creation time. *)
Definition initialState (now : Z) : AppState := {|
  viewState := {|
    MapViewState.longitude := 67%Q;
    MapViewState.latitude := 48%Q;
    MapViewState.zoom := 4%Q;
    MapViewState.pitch := 0%Q;
    MapViewState.bearing := 0%Q
  |};
  layers := [];
  selectedBasemap := "dark";
  is3DEnabled := false;
  pendingMapAction := None;
  messages := [
    {| ChatMessage.id := "welcome";
       ChatMessage.role := assistant;
       ChatMessage.content := welcome_content;
       ChatMessage.timestamp := now;
       ChatMessage.code := None;
       ChatMessage.mapLayers := None;
       ChatMessage.data := None;
       ChatMessage.chart := None;
       ChatMessage.mapAction := None |}
  ];
  isLoading := false;
  currentChart := None;
  isSidebarOpen := true;
  activePanel := chat_panel;
  showCode := false;
  showChart := true
|}.

(** *** Map actions *)

(** [{ ...state.viewState, ...viewState }] *)
Definition merge_viewState (v : MapViewState.t) (p : PartialViewState.t) : MapViewState.t := {|
  MapViewState.longitude := default (MapViewState.longitude v) (PartialViewState.longitude p);
  MapViewState.latitude := default (MapViewState.latitude v) (PartialViewState.latitude p);
  MapViewState.zoom := default (MapViewState.zoom v) (PartialViewState.zoom p);
  MapViewState.pitch := default (MapViewState.pitch v) (PartialViewState.pitch p);
  MapViewState.bearing := default (MapViewState.bearing v) (PartialViewState.bearing p)
|}.

Definition setViewState (p : PartialViewState.t) (s : AppState) : AppState :=
  with_viewState (merge_viewState (viewState s) p) s.

(** [[...state.layers.filter((l) => l.id !== layer.id), layer]] *)
Definition addLayer (layer : MapLayer.t) (s : AppState) : AppState :=
  with_layers
    (filter (λ l, MapLayer.id l ≠ MapLayer.id layer) (layers s) ++ [layer]) s.

Definition removeLayer (layerId : string) (s : AppState) : AppState :=
  with_layers (filter (λ l, MapLayer.id l ≠ layerId) (layers s)) s.

Definition clearLayers (s : AppState) : AppState := with_layers [] s.

(** [{ ...l, visible: !l.visible }] *)
Definition flip_visible (l : MapLayer.t) : MapLayer.t := {|
  MapLayer.id := MapLayer.id l;
  MapLayer.name := MapLayer.name l;
  MapLayer.type := MapLayer.type l;
  MapLayer.visible := negb (MapLayer.visible l);
  MapLayer.opacity := MapLayer.opacity l;
  MapLayer.source := MapLayer.source l;
  MapLayer.paint := MapLayer.paint l;
  MapLayer.deckLayer := MapLayer.deckLayer l
|}.

Definition toggleLayerVisibility (layerId : string) (s : AppState) : AppState :=
  with_layers
    ((λ l, if decide (MapLayer.id l = layerId) then flip_visible l else l)
       <$> layers s) s.

(** [{ ...l, opacity }] *)
Definition put_opacity (opacity : number) (l : MapLayer.t) : MapLayer.t := {|
  MapLayer.id := MapLayer.id l;
  MapLayer.name := MapLayer.name l;
  MapLayer.type := MapLayer.type l;
  MapLayer.visible := MapLayer.visible l;
  MapLayer.opacity := opacity;
  MapLayer.source := MapLayer.source l;
  MapLayer.paint := MapLayer.paint l;
  MapLayer.deckLayer := MapLayer.deckLayer l
|}.

Definition setLayerOpacity (layerId : string) (opacity : number) (s : AppState) : AppState :=
  with_layers
    ((λ l, if decide (MapLayer.id l = layerId) then put_opacity opacity l else l)
       <$> layers s) s.

Definition setBasemap (basemapId : string) (s : AppState) : AppState :=
  with_selectedBasemap basemapId s.

(** [{ ...state.viewState, pitch: state.is3DEnabled ? 0 : 45 }] *)
Definition put_pitch (pitch : number) (v : MapViewState.t) : MapViewState.t := {|
  MapViewState.longitude := MapViewState.longitude v;
  MapViewState.latitude := MapViewState.latitude v;
  MapViewState.zoom := MapViewState.zoom v;
  MapViewState.pitch := pitch;
  MapViewState.bearing := MapViewState.bearing v
|}.

Definition toggle3D (s : AppState) : AppState :=
  with_viewState
    (put_pitch (if is3DEnabled s then 0%Q else 45%Q) (viewState s))
    (with_is3DEnabled (negb (is3DEnabled s)) s).

(** The write of [setMapAction]; the notification of the subscriber of this
    slice is modelled below, with the map surface. *)
Definition setMapAction (action : option MapAction.t) (s : AppState) : AppState :=
  with_pendingMapAction action s.

Definition clearMapAction (s : AppState) : AppState :=
  with_pendingMapAction None s.

(** *** Chat actions *)

(** [{ ...message, id: `msg-${Date.now()}`, timestamp: new Date() }] *)
Definition stamp (now : Z) (m : NewMessage.t) : ChatMessage.t := {|
  ChatMessage.id := "msg-" ++ pretty now;
  ChatMessage.role := NewMessage.role m;
  ChatMessage.content := NewMessage.content m;
  ChatMessage.timestamp := now;
  ChatMessage.code := NewMessage.code m;
  ChatMessage.mapLayers := NewMessage.mapLayers m;
  ChatMessage.data := NewMessage.data m;
  ChatMessage.chart := NewMessage.chart m;
  ChatMessage.mapAction := NewMessage.mapAction m
|}.

Definition addMessage (now : Z) (message : NewMessage.t) (s : AppState) : AppState :=
  with_messages (messages s ++ [stamp now message]) s.

Definition cleared_message (now : Z) : ChatMessage.t := {|
  ChatMessage.id := "welcome";
  ChatMessage.role := assistant;
  ChatMessage.content := "🌍 Chat cleared. How can I help you with geospatial analysis?";
  ChatMessage.timestamp := now;
  ChatMessage.code := None;
  ChatMessage.mapLayers := None;
  ChatMessage.data := None;
  ChatMessage.chart := None;
  ChatMessage.mapAction := None
|}.

Definition clearMessages (now : Z) (s : AppState) : AppState :=
  with_currentChart None (with_messages [cleared_message now] s).

Definition setLoading (loading : bool) (s : AppState) : AppState :=
  with_isLoading loading s.

Definition setChart (chart : option ChartData.t) (s : AppState) : AppState :=
  with_currentChart chart s.

(** *** UI actions *)

Definition toggleSidebar (s : AppState) : AppState :=
  with_isSidebarOpen (negb (isSidebarOpen s)) s.

Definition setActivePanel (panel : Panel) (s : AppState) : AppState :=
  with_activePanel panel s.

Definition toggleCode (s : AppState) : AppState :=
  with_showCode (negb (showCode s)) s.

Definition toggleChart (s : AppState) : AppState :=
  with_showChart (negb (showChart s)) s.

(** ** The chat transport ([api.ts]) *)

(** Wire shape of a returned layer: the fields [sendMessage] reads. *)
Module WireLayer.
Record t := mk {
  id : string;
  type : string;
  source : any;
  paint : option any
}.
End WireLayer.

Module ChatResponse.
Record t := mk {
  message : string;
  map_layers : option (list WireLayer.t);
  map_action : option MapAction.t;
  code : option string;
  data : option any;
  visualization : option any;
  chart : option ChartData.t;
  animation : option any;
  status : string
}.
End ChatResponse.

(** What a fulfilled chat call hands to its caller: a body of the declared
    shape, or one whose fields cannot be read ([null], or [map_layers] that
    is not an array of objects), on which the caller's first field reads
    throw a [TypeError]. *)
Inductive Reply :=
  | Json (r : ChatResponse.t)
  | Unreadable.

(** How a promise settles. *)
Inductive Settled (A : Type) :=
  | Fulfilled (a : A)
  | Rejected.
Arguments Fulfilled {A} a.
Arguments Rejected {A}.

(** The response [geoApi.chat] returns from its [catch]. *)
Definition fallback_message (query : string) : string :=
  "I received your query: " ++ dq ++ query ++ dq ++
  ". The backend server might not be running. Please start the backend with: `cd backend && python main.py`".

Definition fallback_response (query : string) : ChatResponse.t := {|
  ChatResponse.message := fallback_message query;
  ChatResponse.map_layers := None;
  ChatResponse.map_action := None;
  ChatResponse.code := None;
  ChatResponse.data := None;
  ChatResponse.visualization := None;
  ChatResponse.chart := None;
  ChatResponse.animation := None;
  ChatResponse.status := "error"
|}.

(** [geoApi.chat]: [post] is the way [api.post('/api/chat', request)]
    settles; a rejection is caught and answered with the fallback. *)
Definition chat (query : string) (post : Settled Reply) : Settled Reply :=
  match post with
  | Fulfilled data => Fulfilled data
  | Rejected => Fulfilled (Json (fallback_response query))
  end.

(** ** The map surface ([MapView.tsx]) *)

(** Camera commands issued to the map engine. *)
Inductive CameraCommand :=
  | FlyTo (center : option (number * number))
      (zoom pitch bearing duration : number)
  | FitBounds (bounds : (number * number) * (number * number))
      (padding duration : number).

(** The store together with the map surface that observes it:
    [mapMounted] is [mapRef.current] being set, [subscribed] is the
    subscription of the [useEffect] of [MapView] being active, [camera] is
    the log of the commands the engine has received, oldest first. *)
Record World := mkWorld {
  store : AppState;
  mapMounted : bool;
  subscribed : bool;
  camera : list CameraCommand
}.

Definition update_store (f : AppState → AppState) (w : World) : World :=
  mkWorld (f (store w)) (mapMounted w) (subscribed w) (camera w).

Definition issue (c : CameraCommand) (w : World) : World :=
  mkWorld (store w) (mapMounted w) (subscribed w) (camera w ++ [c]).

(** [handleMapAction]; the engine is taken to accept every command. *)
Definition handleMapAction (action : option MapAction.t) (w : World) : World :=
  match action with
  | None => w
  | Some a =>
    if negb (mapMounted w) then w
    else if decide (MapAction.type a = "flyTo") then
      issue (FlyTo (MapAction.center a)
               (or_default (MapAction.zoom a) 12%Q)
               (or_default (MapAction.pitch a) 0%Q)
               (or_default (MapAction.bearing a) 0%Q)
               (or_default (MapAction.duration a) 2000%Q)) w
    else if decide (MapAction.type a = "fitBounds") then
      match MapAction.bounds a with
      | Some b => issue (FitBounds b 50%Q 2000%Q) w
      | None => w
      end
    else w
  end.

(** The listener of [useAppStore.subscribe(state => state.pendingMapAction, ...)].
    Its call of [clearMapAction] writes [null] into the slot; that write
    notifies this listener again, now with [null], and the guard
    [if (action)] makes that nested call do nothing. *)
Definition pendingMapAction_listener (action : option MapAction.t) (w : World) : World :=
  match action with
  | Some a => update_store clearMapAction (handleMapAction (Some a) w)
  | None => w
  end.

(** [Object.is(previousSlice, nextSlice)] of [subscribeWithSelector]: two
    slots are the same when both are [null] or both hold the same object. *)
Definition same_slot (prev next : option MapAction.t) : bool :=
  match prev, next with
  | None, None => true
  | Some a, Some b => bool_decide (MapAction.ref a = MapAction.ref b)
  | _, _ => false
  end.

(** ** Store actions as seen by the whole application

    Only [setMapAction] and [clearMapAction] write the observed slice; every
    other action leaves the slot as it is, so the subscriber is not called.
    The write itself always happens; the subscriber is called when the
    slot is not the same as before. *)

Definition w_setMapAction (action : option MapAction.t) (w : World) : World :=
  let prev := pendingMapAction (store w) in
  let w' := update_store (setMapAction action) w in
  if subscribed w' && negb (same_slot prev action)
  then pendingMapAction_listener action w'
  else w'.

Definition w_clearMapAction (w : World) : World :=
  let prev := pendingMapAction (store w) in
  let w' := update_store clearMapAction w in
  if subscribed w' && negb (same_slot prev None)
  then pendingMapAction_listener None w'
  else w'.

(** [subscribe] does not call the listener ([fireImmediately] is not set). *)
Definition subscribe (w : World) : World :=
  mkWorld (store w) (mapMounted w) true (camera w).

Definition unsubscribe (w : World) : World :=
  mkWorld (store w) (mapMounted w) false (camera w).

Definition set_mapMounted (b : bool) (w : World) : World :=
  mkWorld (store w) b (subscribed w) (camera w).

Definition initialWorld (now : Z) : World :=
  mkWorld (initialState now) false false [].

(** ** The chat dispatcher ([store.ts], [sendMessage]) *)

(** How a block of statements completes, with the world it leaves. *)
Inductive Completion :=
  | Normal (w : World)
  | Thrown (w : World).

Definition world_of (c : Completion) : World :=
  match c with Normal w | Thrown w => w end.

(** [try { c } catch { handler }] *)
Definition try_catch (c : Completion) (handler : World → Completion) : Completion :=
  match c with
  | Normal w => Normal w
  | Thrown w => handler w
  end.

(** [... finally { f }], for a [finally] block that cannot throw. *)
Definition finally (c : Completion) (f : World → World) : Completion :=
  match c with
  | Normal w => Normal (f w)
  | Thrown w => Thrown (f w)
  end.

(** The layer [sendMessage] builds from a returned one. *)
Definition toLayer (layer : WireLayer.t) : MapLayer.t := {|
  MapLayer.id := WireLayer.id layer;
  MapLayer.name := WireLayer.id layer;
  MapLayer.type := WireLayer.type layer;
  MapLayer.visible := true;
  MapLayer.opacity := 1%Q;
  MapLayer.source := WireLayer.source layer;
  MapLayer.paint := WireLayer.paint layer;
  MapLayer.deckLayer := None
|}.

Definition user_message (query : string) : NewMessage.t := {|
  NewMessage.role := user;
  NewMessage.content := query;
  NewMessage.code := None;
  NewMessage.mapLayers := None;
  NewMessage.data := None;
  NewMessage.chart := None;
  NewMessage.mapAction := None
|}.

Definition assistant_message (response : ChatResponse.t) : NewMessage.t := {|
  NewMessage.role := assistant;
  NewMessage.content := ChatResponse.message response;
  NewMessage.code := None;
  NewMessage.mapLayers :=
    (λ ls : list WireLayer.t, toLayer <$> ls) <$> ChatResponse.map_layers response;
  NewMessage.data := None;
  NewMessage.chart := ChatResponse.chart response;
  NewMessage.mapAction := ChatResponse.map_action response
|}.

Definition failure_message : NewMessage.t := {|
  NewMessage.role := assistant;
  NewMessage.content := "❌ Failed to process request. Please try again.";
  NewMessage.code := None;
  NewMessage.mapLayers := None;
  NewMessage.data := None;
  NewMessage.chart := None;
  NewMessage.mapAction := None
|}.

(** [response.map_layers.forEach(layer => state.addLayer({...}))] *)
Definition addLayers (ls : list WireLayer.t) (w : World) : World :=
  foldl (λ w layer, update_store (addLayer (toLayer layer)) w) w ls.

(** The statements before the [await]. *)
Definition sendMessage_begin (now : Z) (query : string) (w : World) : World :=
  update_store (setLoading true)
    (update_store (addMessage now (user_message query)) w).

(** The [try] block from the [await] on; [result] is the way the promise
    of [geoApi.chat({ query })] settled. An empty [map_layers] array is
    truthy, so it takes the replace branch. *)
Definition sendMessage_try (now : Z) (result : Settled Reply) (w : World) : Completion :=
  match result with
  | Rejected => Thrown w
  | Fulfilled Unreadable => Thrown w
  | Fulfilled (Json response) =>
    let w := update_store (addMessage now (assistant_message response)) w in
    let w :=
      match ChatResponse.map_layers response with
      | Some ls => addLayers ls (update_store clearLayers w)
      | None => w
      end in
    let w :=
      match ChatResponse.chart response with
      | Some c => update_store (setChart (Some c)) w
      | None => w
      end in
    let w :=
      match ChatResponse.map_action response with
      | Some a => w_setMapAction (Some a) w
      | None => w
      end in
    Normal w
  end.

Definition sendMessage_catch (now : Z) (w : World) : Completion :=
  Normal (update_store (addMessage now failure_message) w).

(** The statements after the [await], up to the end of [sendMessage]. *)
Definition sendMessage_resume (now : Z) (result : Settled Reply) (w : World) : Completion :=
  finally
    (try_catch (sendMessage_try now result w) (sendMessage_catch now))
    (update_store (setLoading false)).

(** A call of [sendMessage] that nothing interleaves with: [t0] and [t1]
    are the times of its two clock reads, [post] the way the HTTP request
    settles. *)
Definition sendMessage (t0 t1 : Z) (query : string) (post : Settled Reply) (w : World) : Completion :=
  sendMessage_resume t1 (chat query post) (sendMessage_begin t0 query w).

(** ** Runs of the application

    Everything that can happen to the world between two turns of the event
    loop: a store action, one of the two halves of a [sendMessage] call
    (so calls may overlap and other actions may interleave with them), and
    the mounting and unmounting of the map surface. *)
Inductive Op :=
  | OSetViewState (p : PartialViewState.t)
  | OAddLayer (layer : MapLayer.t)
  | ORemoveLayer (layerId : string)
  | OClearLayers
  | OToggleLayerVisibility (layerId : string)
  | OSetLayerOpacity (layerId : string) (opacity : number)
  | OSetBasemap (basemapId : string)
  | OToggle3D
  | OSetMapAction (action : option MapAction.t)
  | OClearMapAction
  | OAddMessage (now : Z) (message : NewMessage.t)
  | OClearMessages (now : Z)
  | OSetLoading (loading : bool)
  | OSetChart (chart : option ChartData.t)
  | OSendMessageBegin (now : Z) (query : string)
  | OSendMessageResume (now : Z) (result : Settled Reply)
  | OToggleSidebar
  | OSetActivePanel (panel : Panel)
  | OToggleCode
  | OToggleChart
  | OSubscribe
  | OUnsubscribe
  | OMapMounted (b : bool).

Definition step (w : World) (op : Op) : World :=
  match op with
  | OSetViewState p => update_store (setViewState p) w
  | OAddLayer layer => update_store (addLayer layer) w
  | ORemoveLayer layerId => update_store (removeLayer layerId) w
  | OClearLayers => update_store clearLayers w
  | OToggleLayerVisibility layerId => update_store (toggleLayerVisibility layerId) w
  | OSetLayerOpacity layerId opacity => update_store (setLayerOpacity layerId opacity) w
  | OSetBasemap basemapId => update_store (setBasemap basemapId) w
  | OToggle3D => update_store toggle3D w
  | OSetMapAction action => w_setMapAction action w
  | OClearMapAction => w_clearMapAction w
  | OAddMessage now message => update_store (addMessage now message) w
  | OClearMessages now => update_store (clearMessages now) w
  | OSetLoading loading => update_store (setLoading loading) w
  | OSetChart chart => update_store (setChart chart) w
  | OSendMessageBegin now query => sendMessage_begin now query w
  | OSendMessageResume now result => world_of (sendMessage_resume now result w)
  | OToggleSidebar => update_store toggleSidebar w
  | OSetActivePanel panel => update_store (setActivePanel panel) w
  | OToggleCode => update_store toggleCode w
  | OToggleChart => update_store toggleChart w
  | OSubscribe => subscribe w
  | OUnsubscribe => unsubscribe w
  | OMapMounted b => set_mapMounted b w
  end.

Definition run (ops : list Op) (w : World) : World := foldl step w ops.

(** An operation that writes a new action into the slot. *)
Definition enqueues (op : Op) : bool :=
  match op with
  | OSetMapAction (Some _) => true
  | OSendMessageResume _ (Fulfilled (Json response)) =>
    bool_decide (is_Some (ChatResponse.map_action response))
  | _ => false
  end.

(** The layers of a list that no later layer of the same id follows, in
    their order: what remains when each id keeps its last occurrence. *)
Fixpoint keep_last (ls : list MapLayer.t) : list MapLayer.t :=
  match ls with
  | [] => []
  | l :: rest =>
    if decide (MapLayer.id l ∈ layer_ids rest)
    then keep_last rest
    else l :: keep_last rest
  end.

(** The number of distinct ids among the layers of a list. *)
Definition distinct_ids (ls : list MapLayer.t) : nat :=
  size (list_to_set (layer_ids ls) : gset string).

(** The list [addLayer] writes. *)
Definition upsert (layer : MapLayer.t) (ls : list MapLayer.t) : list MapLayer.t :=
  filter (λ l, MapLayer.id l ≠ MapLayer.id layer) ls ++ [layer].

(** ** Sample data *)

(** Two returned layers that share the id [a]. *)
Definition twin_layers : list WireLayer.t := [
  {| WireLayer.id := "a"; WireLayer.type := "circle";
     WireLayer.source := JNull; WireLayer.paint := None |};
  {| WireLayer.id := "a"; WireLayer.type := "line";
     WireLayer.source := JNull; WireLayer.paint := None |}
].

Definition respond_with_layers (ls : list WireLayer.t) : ChatResponse.t := {|
  ChatResponse.message := "ok";
  ChatResponse.map_layers := Some ls;
  ChatResponse.map_action := None;
  ChatResponse.code := None;
  ChatResponse.data := None;
  ChatResponse.visualization := None;
  ChatResponse.chart := None;
  ChatResponse.animation := None;
  ChatResponse.status := "success"
|}.

(** A [fitBounds] action that carries no bounds. *)
Definition fitBounds_without_bounds : MapAction.t := {|
  MapAction.ref := 2;
  MapAction.type := "fitBounds";
  MapAction.center := None;
  MapAction.zoom := None;
  MapAction.pitch := None;
  MapAction.bearing := None;
  MapAction.bounds := None;
  MapAction.duration := None
|}.

(** A [flyTo] action that names its center only. *)
Definition flyTo_Astana : MapAction.t := {|
  MapAction.ref := 1;
  MapAction.type := "flyTo";
  MapAction.center := Some (71.4491%Q, 51.1801%Q);
  MapAction.zoom := None;
  MapAction.pitch := None;
  MapAction.bearing := None;
  MapAction.bounds := None;
  MapAction.duration := None
|}.

(** ** The realtime channel ([api.ts], [ChatWebSocket])

    The fields of the object, and two logs of what it has asked of the
    runtime: [sockets] counts the [WebSocket]s it has constructed (the one
    it holds is named by its number), [timers] lists the delays, in
    milliseconds, of its [setTimeout] calls, oldest first. A message handler
    is an opaque callback, named by a number. *)
Module ChatWebSocket.
Record t := mk {
  ws : option nat;
  messageHandler : option nat;
  reconnectAttempts : nat;
  maxReconnectAttempts : nat;
  sockets : nat;
  timers : list Z
}.
End ChatWebSocket.

(** [new ChatWebSocket()] *)
Definition newChatWebSocket : ChatWebSocket.t := {|
  ChatWebSocket.ws := None;
  ChatWebSocket.messageHandler := None;
  ChatWebSocket.reconnectAttempts := 0;
  ChatWebSocket.maxReconnectAttempts := 5;
  ChatWebSocket.sockets := 0;
  ChatWebSocket.timers := []
|}.

(** [connect(onMessage)]; [constructed] tells whether [new WebSocket(wsUrl)]
    returned a socket or threw (the [catch] only logs). The socket held
    before is not closed. *)
Definition ws_connect (onMessage : nat) (constructed : bool) (c : ChatWebSocket.t) : ChatWebSocket.t := {|
  ChatWebSocket.ws :=
    if constructed then Some (ChatWebSocket.sockets c) else ChatWebSocket.ws c;
  ChatWebSocket.messageHandler := Some onMessage;
  ChatWebSocket.reconnectAttempts := ChatWebSocket.reconnectAttempts c;
  ChatWebSocket.maxReconnectAttempts := ChatWebSocket.maxReconnectAttempts c;
  ChatWebSocket.sockets :=
    if constructed then S (ChatWebSocket.sockets c) else ChatWebSocket.sockets c;
  ChatWebSocket.timers := ChatWebSocket.timers c
|}.

(** [ws.onopen] *)
Definition ws_onopen (c : ChatWebSocket.t) : ChatWebSocket.t := {|
  ChatWebSocket.ws := ChatWebSocket.ws c;
  ChatWebSocket.messageHandler := ChatWebSocket.messageHandler c;
  ChatWebSocket.reconnectAttempts := 0;
  ChatWebSocket.maxReconnectAttempts := ChatWebSocket.maxReconnectAttempts c;
  ChatWebSocket.sockets := ChatWebSocket.sockets c;
  ChatWebSocket.timers := ChatWebSocket.timers c
|}.

(** [attemptReconnect()] *)
Definition attemptReconnect (c : ChatWebSocket.t) : ChatWebSocket.t :=
  if bool_decide (ChatWebSocket.reconnectAttempts c < ChatWebSocket.maxReconnectAttempts c)%nat
     && bool_decide (is_Some (ChatWebSocket.messageHandler c))
  then {|
    ChatWebSocket.ws := ChatWebSocket.ws c;
    ChatWebSocket.messageHandler := ChatWebSocket.messageHandler c;
    ChatWebSocket.reconnectAttempts := S (ChatWebSocket.reconnectAttempts c);
    ChatWebSocket.maxReconnectAttempts := ChatWebSocket.maxReconnectAttempts c;
    ChatWebSocket.sockets := ChatWebSocket.sockets c;
    ChatWebSocket.timers :=
      ChatWebSocket.timers c ++
        [(2000 * Z.of_nat (S (ChatWebSocket.reconnectAttempts c)))%Z]
  |}
  else c.

(** [ws.onclose] *)
Definition ws_onclose (c : ChatWebSocket.t) : ChatWebSocket.t := attemptReconnect c.

(** The callback of the [setTimeout] of [attemptReconnect]:
    [this.connect(this.messageHandler!)], with the handler of that moment;
    a timer exists only after a handler was set. *)
Definition ws_timer (constructed : bool) (c : ChatWebSocket.t) : ChatWebSocket.t :=
  match ChatWebSocket.messageHandler c with
  | Some h => ws_connect h constructed c
  | None => c
  end.

(** [disconnect()]; the [close] event of the socket arrives later, as a
    call of [ws.onclose]. *)
Definition ws_disconnect (c : ChatWebSocket.t) : ChatWebSocket.t :=
  match ChatWebSocket.ws c with
  | Some _ => {|
      ChatWebSocket.ws := None;
      ChatWebSocket.messageHandler := ChatWebSocket.messageHandler c;
      ChatWebSocket.reconnectAttempts := ChatWebSocket.reconnectAttempts c;
      ChatWebSocket.maxReconnectAttempts := ChatWebSocket.maxReconnectAttempts c;
      ChatWebSocket.sockets := ChatWebSocket.sockets c;
      ChatWebSocket.timers := ChatWebSocket.timers c
    |}
  | None => c
  end.

(** What can happen to the channel object. *)
Inductive WsEvent :=
  | WsConnect (onMessage : nat) (constructed : bool)
  | WsOpen
  | WsClose
  | WsTimer (constructed : bool)
  | WsDisconnect.

Definition ws_step (c : ChatWebSocket.t) (e : WsEvent) : ChatWebSocket.t :=
  match e with
  | WsConnect onMessage constructed => ws_connect onMessage constructed c
  | WsOpen => ws_onopen c
  | WsClose => ws_onclose c
  | WsTimer constructed => ws_timer constructed c
  | WsDisconnect => ws_disconnect c
  end.

Definition ws_run (es : list WsEvent) (c : ChatWebSocket.t) : ChatWebSocket.t :=
  foldl ws_step c es.

(** ** Reading JSON values *)

(** [!!v] *)
Definition truthy (v : any) : bool :=
  match v with
  | JNull => false
  | JBool b => b
  | JNum x => negb (falsy x)
  | JStr EmptyString => false
  | JStr (String _ _) => true
  | JArr _ | JObj _ => true
  end.

(** The value of key [k] among the fields of an object; as in a parsed
    JSON text, the last field of that key counts. *)
Fixpoint lookup_field (k : string) (fields : list (string * any)) : option any :=
  match fields with
  | [] => None
  | (k', v) :: rest =>
    match lookup_field k rest with
    | Some v' => Some v'
    | None => if decide (k' = k) then Some v else None
    end
  end.

(** [v[k]] for a value that is not [null]; [None] is [undefined]. *)
Definition field (v : any) (k : string) : option any :=
  match v with
  | JObj fields => lookup_field k fields
  | _ => None
  end.

(** [!!o] for a value that may be [undefined]. *)
Definition truthy_opt (o : option any) : bool :=
  match o with
  | Some v => truthy v
  | None => false
  end.

(** [o === s] for a string literal [s] *)
Definition is_string (o : option any) (s : string) : bool :=
  match o with
  | Some (JStr s') => bool_decide (s' = s)
  | _ => false
  end.

(** [o || d] *)
Definition or_else (o : option any) (d : any) : any :=
  match o with
  | Some v => if truthy v then v else d
  | None => d
  end.

(** ** Clicks and hovers on the map ([MapView.tsx]) *)

Inductive FeatureType := glacier | river | lake | city | generic.

Module PopupData.
Record t := mk {
  type : FeatureType;
  coordinates : number * number;
  properties : any
}.
End PopupData.

(** A feature under the pointer, with its [properties] ([None]: absent). *)
Module Feature.
Record t := mk {
  properties : option any
}.
End Feature.

Module MouseEvent.
Record t := mk {
  lng : number;
  lat : number;
  features : option (list Feature.t)
}.
End MouseEvent.

(** The local state of the [MapView] component. *)
Record MapUi := mkMapUi {
  cursorPosition : option (number * number);
  hoveredFeature : option any;
  popupData : option PopupData.t
}.

(** The classification of [onClick], on [props = feature.properties || {}]. *)
Definition classify (props : any) : FeatureType :=
  if is_string (field props "type") "glacier"
     || truthy_opt (field props "glacier_type") then glacier
  else if is_string (field props "type") "river"
     || truthy_opt (field props "discharge") then river
  else if is_string (field props "type") "lake"
     || truthy_opt (field props "lake_type") then lake
  else if truthy_opt (field props "population") then city
  else generic.

Definition onClick (evt : MouseEvent.t) (ui : MapUi) : MapUi :=
  match MouseEvent.features evt with
  | Some (feature :: _) =>
    let props := or_else (Feature.properties feature) (JObj []) in
    mkMapUi (cursorPosition ui) (hoveredFeature ui)
      (Some {| PopupData.type := classify props;
               PopupData.coordinates := (MouseEvent.lng evt, MouseEvent.lat evt);
               PopupData.properties := props |})
  | _ => ui
  end.

Definition closePopup (ui : MapUi) : MapUi :=
  mkMapUi (cursorPosition ui) (hoveredFeature ui) None.

(** [feature.properties?.name] *)
Definition feature_name (feature : Feature.t) : option any :=
  match Feature.properties feature with
  | Some JNull | None => None
  | Some props => field props "name"
  end.

Definition onMouseMove (evt : MouseEvent.t) (ui : MapUi) : MapUi :=
  let cursor := Some (MouseEvent.lng evt, MouseEvent.lat evt) in
  match MouseEvent.features evt with
  | Some (feature :: _) =>
    match feature_name feature with
    | Some name =>
      if truthy name then mkMapUi cursor (Some name) (popupData ui)
      else mkMapUi cursor (hoveredFeature ui) (popupData ui)
    | None => mkMapUi cursor (hoveredFeature ui) (popupData ui)
    end
  | _ => mkMapUi cursor None (popupData ui)
  end.

(** ** Rendering of the layers ([MapView.tsx], [renderLayer]) *)

(** A paint value: a JSON value, or the product [base * factor] of
    ['fill-opacity'], kept as its two operands. *)
Inductive PaintValue :=
  | Plain (v : any)
  | Product (base : any) (factor : number).

(** A [<Layer>] element. *)
Module Primitive.
Record t := mk {
  id : string;
  type : string;
  layout : list (string * any);
  paint : list (string * PaintValue)
}.
End Primitive.

(** A [<Source>] element with its [<Layer>] children. *)
Module SourceElement.
Record t := mk {
  key : string;
  id : string;
  type : string;
  data : any;
  children : list Primitive.t
}.
End SourceElement.

(** [layer.paint?.[k]] *)
Definition paint_of (layer : MapLayer.t) (k : string) : option any :=
  match MapLayer.paint layer with
  | Some JNull | None => None
  | Some p => field p k
  end.

(** [layer.source?.data || layer.source] *)
Definition sourceData (layer : MapLayer.t) : any :=
  or_else (field (MapLayer.source layer) "data") (MapLayer.source layer).

Definition heatmap_ramp : any :=
  JArr [JStr "interpolate"; JArr [JStr "linear"]; JArr [JStr "heatmap-density"];
        JNum 0%Q; JStr "rgba(0,0,0,0)";
        JNum 0.2%Q; JStr "#4338ca";
        JNum 0.4%Q; JStr "#7c3aed";
        JNum 0.6%Q; JStr "#c026d3";
        JNum 0.8%Q; JStr "#e11d48";
        JNum 1%Q; JStr "#fbbf24"].

Definition source_of (layer : MapLayer.t) (children : list Primitive.t) : SourceElement.t := {|
  SourceElement.key := MapLayer.id layer;
  SourceElement.id := MapLayer.id layer;
  SourceElement.type := "geojson";
  SourceElement.data := sourceData layer;
  SourceElement.children := children
|}.

Definition extrusion_primitive (layer : MapLayer.t) : Primitive.t := {|
  Primitive.id := MapLayer.id layer ++ "-extrusion";
  Primitive.type := "fill-extrusion";
  Primitive.layout := [];
  Primitive.paint := [
    ("fill-extrusion-color",
      Plain (or_else (paint_of layer "fill-extrusion-color") (JStr "#00d4aa")));
    ("fill-extrusion-height",
      Plain (or_else (paint_of layer "fill-extrusion-height")
               (JArr [JStr "get"; JStr "height"])));
    ("fill-extrusion-base",
      Plain (or_else (paint_of layer "fill-extrusion-base") (JNum 0%Q)));
    ("fill-extrusion-opacity",
      Plain (or_else (paint_of layer "fill-extrusion-opacity") (JNum 0.8%Q)))
  ]
|}.

Definition heat_primitive (layer : MapLayer.t) : Primitive.t := {|
  Primitive.id := MapLayer.id layer ++ "-heat";
  Primitive.type := "heatmap";
  Primitive.layout := [];
  Primitive.paint := [
    ("heatmap-weight", Plain (or_else (paint_of layer "heatmap-weight") (JNum 1%Q)));
    ("heatmap-intensity",
      Plain (or_else (paint_of layer "heatmap-intensity") (JNum 1%Q)));
    ("heatmap-color", Plain (or_else (paint_of layer "heatmap-color") heatmap_ramp));
    ("heatmap-radius", Plain (or_else (paint_of layer "heatmap-radius") (JNum 20%Q)));
    ("heatmap-opacity",
      Plain (or_else (paint_of layer "heatmap-opacity") (JNum 0.8%Q)))
  ]
|}.

Definition circle_primitive (layer : MapLayer.t) : Primitive.t := {|
  Primitive.id := MapLayer.id layer ++ "-circle";
  Primitive.type := "circle";
  Primitive.layout := [];
  Primitive.paint := [
    ("circle-radius", Plain (or_else (paint_of layer "circle-radius") (JNum 8%Q)));
    ("circle-color",
      Plain (or_else (paint_of layer "circle-color") (JStr "#00d4aa")));
    ("circle-stroke-width",
      Plain (or_else (paint_of layer "circle-stroke-width") (JNum 2%Q)));
    ("circle-stroke-color",
      Plain (or_else (paint_of layer "circle-stroke-color") (JStr "#ffffff")));
    ("circle-opacity", Plain (JNum (or_default (Some (MapLayer.opacity layer)) 1%Q)))
  ]
|}.

Definition label_primitive (layer : MapLayer.t) : Primitive.t := {|
  Primitive.id := MapLayer.id layer ++ "-label";
  Primitive.type := "symbol";
  Primitive.layout := [
    ("text-field", JArr [JStr "get"; JStr "name"]);
    ("text-size", JNum 12%Q);
    ("text-offset", JArr [JNum 0%Q; JNum 1.5%Q]);
    ("text-anchor", JStr "top")
  ];
  Primitive.paint := [
    ("text-color", Plain (JStr "#ffffff"));
    ("text-halo-color", Plain (JStr "#000000"));
    ("text-halo-width", Plain (JNum 1%Q))
  ]
|}.

Definition line_primitive (layer : MapLayer.t) : Primitive.t := {|
  Primitive.id := MapLayer.id layer ++ "-line";
  Primitive.type := "line";
  Primitive.layout := [];
  Primitive.paint := [
    ("line-color", Plain (or_else (paint_of layer "line-color") (JStr "#00d4aa")));
    ("line-width", Plain (or_else (paint_of layer "line-width") (JNum 3%Q)));
    ("line-opacity", Plain (JNum (or_default (Some (MapLayer.opacity layer)) 1%Q)));
    ("line-dasharray",
      Plain (or_else (paint_of layer "line-dasharray") (JArr [JNum 1%Q; JNum 0%Q])))
  ]
|}.

Definition fill_primitive (layer : MapLayer.t) : Primitive.t := {|
  Primitive.id := MapLayer.id layer ++ "-fill";
  Primitive.type := "fill";
  Primitive.layout := [];
  Primitive.paint := [
    ("fill-color", Plain (or_else (paint_of layer "fill-color") (JStr "#00d4aa")));
    ("fill-opacity",
      Product (or_else (paint_of layer "fill-opacity") (JNum 0.3%Q))
        (MapLayer.opacity layer))
  ]
|}.

Definition outline_primitive (layer : MapLayer.t) : Primitive.t := {|
  Primitive.id := MapLayer.id layer ++ "-outline";
  Primitive.type := "line";
  Primitive.layout := [];
  Primitive.paint := [
    ("line-color",
      Plain (or_else (paint_of layer "fill-outline-color")
               (or_else (paint_of layer "fill-color") (JStr "#00d4aa"))));
    ("line-width", Plain (JNum 2%Q));
    ("line-opacity", Plain (JNum (MapLayer.opacity layer)))
  ]
|}.

(** [renderLayer]; [None] is the [null] it returns for a hidden layer. *)
Definition renderLayer (layer : MapLayer.t) : option SourceElement.t :=
  if negb (MapLayer.visible layer) then None
  else if decide (MapLayer.type layer = "fill-extrusion") then
    Some (source_of layer [extrusion_primitive layer])
  else if decide (MapLayer.type layer = "heatmap") then
    Some (source_of layer [heat_primitive layer])
  else if decide (MapLayer.type layer = "circle") then
    Some (source_of layer [circle_primitive layer; label_primitive layer])
  else if decide (MapLayer.type layer = "line") then
    Some (source_of layer [line_primitive layer])
  else
    Some (source_of layer [fill_primitive layer; outline_primitive layer]).

(** [layers.filter(l => l.visible).map(renderLayer)] *)
Definition renderLayers (ls : list MapLayer.t) : list (option SourceElement.t) :=
  renderLayer <$> filter (λ l, MapLayer.visible l = true) ls.

(** The [interactiveLayerIds] of the map. *)
Definition interactiveLayerIds (ls : list MapLayer.t) : list string :=
  l ← ls;
  [MapLayer.id l ++ "-fill"; MapLayer.id l ++ "-circle";
   MapLayer.id l ++ "-extrusion"; MapLayer.id l ++ "-line"]%string.

(** The last character of a string. *)
Fixpoint last_char (s : string) : option Ascii.ascii :=
  match s with
  | EmptyString => None
  | String c EmptyString => Some c
  | String _ rest => last_char rest
  end.

(** The primitives a layer is drawn with: the id and the type of each. *)
Definition primitives_of (layer : MapLayer.t) : list (string * string) :=
  match renderLayer layer with
  | Some src => (λ p, (Primitive.id p, Primitive.type p)) <$> SourceElement.children src
  | None => []
  end.

(** The paint of the primitives a layer is drawn with. *)
Definition paints_of (layer : MapLayer.t) : list (string * PaintValue) :=
  match renderLayer layer with
  | Some src => p ← SourceElement.children src; Primitive.paint p
  | None => []
  end.

(** ** Helpers for stating properties of the store *)

(** The partial view state that names no field. *)
Definition no_change : PartialViewState.t := {|
  PartialViewState.longitude := None;
  PartialViewState.latitude := None;
  PartialViewState.zoom := None;
  PartialViewState.pitch := None;
  PartialViewState.bearing := None
|}.

(** [{ ...p, ...q }] on two partial view states: a field of [q] wins. *)
Definition then_partial (p q : PartialViewState.t) : PartialViewState.t := {|
  PartialViewState.longitude :=
    from_option Some (PartialViewState.longitude p) (PartialViewState.longitude q);
  PartialViewState.latitude :=
    from_option Some (PartialViewState.latitude p) (PartialViewState.latitude q);
  PartialViewState.zoom :=
    from_option Some (PartialViewState.zoom p) (PartialViewState.zoom q);
  PartialViewState.pitch :=
    from_option Some (PartialViewState.pitch p) (PartialViewState.pitch q);
  PartialViewState.bearing :=
    from_option Some (PartialViewState.bearing p) (PartialViewState.bearing q)
|}.

(** The message a settled chat call puts into the log. *)
Definition reply_message (query : string) (post : Settled Reply) : NewMessage.t :=
  match post with
  | Fulfilled (Json response) => assistant_message response
  | Fulfilled Unreadable => failure_message
  | Rejected => assistant_message (fallback_response query)
  end.

(** The number of operations of a run that write a new action. *)
Definition count_enqueues (ops : list Op) : nat :=
  length (filter (λ op, enqueues op = true) ops).

(** An operation that can change the layer list. *)
Definition writes_layers (op : Op) : bool :=
  match op with
  | OAddLayer _ | ORemoveLayer _ | OClearLayers
  | OToggleLayerVisibility _ | OSetLayerOpacity _ _ => true
  | OSendMessageResume _ (Fulfilled (Json response)) =>
    bool_decide (is_Some (ChatResponse.map_layers response))
  | _ => false
  end.

(** A chart, and a response that brings nothing but its text. *)
Definition sample_chart : ChartData.t := {|
  ChartData.type := "bar";
  ChartData.title := "Population";
  ChartData.labels := [JStr "Almaty"; JStr "Astana"];
  ChartData.datasets := []
|}.

Definition respond_with_text (text : string) : ChatResponse.t := {|
  ChatResponse.message := text;
  ChatResponse.map_layers := None;
  ChatResponse.map_action := None;
  ChatResponse.code := None;
  ChatResponse.data := None;
  ChatResponse.visualization := None;
  ChatResponse.chart := None;
  ChatResponse.animation := None;
  ChatResponse.status := "success"
|}.

(** * Properties *)

(** ** Field writes and the other fields *)

Lemma AppState_eta s :
  mkAppState (viewState s) (layers s) (selectedBasemap s) (is3DEnabled s)
    (pendingMapAction s) (messages s) (isLoading s) (currentChart s)
    (isSidebarOpen s) (activePanel s) (showCode s) (showChart s) = s.
Proof. by destruct s. Qed.

Lemma with_layers_same s : with_layers (layers s) s = s.
Proof. apply AppState_eta. Qed.

Lemma flip_visible_involutive l : flip_visible (flip_visible l) = l.
Proof. destruct l as [? ? ? v ? ? ? ?]. unfold flip_visible; simpl. by rewrite negb_involutive. Qed.

(** ** Layer lists *)

Section layer_lists.
Implicit Types (l : MapLayer.t) (ls : list MapLayer.t) (i : string).

Lemma layer_ids_app ls1 ls2 : layer_ids (ls1 ++ ls2) = layer_ids ls1 ++ layer_ids ls2.
Proof. apply fmap_app. Qed.

Lemma filter_absent_id i ls :
  i ∉ layer_ids ls → filter (λ l, MapLayer.id l ≠ i) ls = ls.
Proof.
  induction ls as [|l ls IH]; [done|]; intros Hi.
  rewrite filter_cons. apply not_elem_of_cons in Hi as [Hne Hi].
  rewrite decide_True; [|done]. by rewrite IH.
Qed.

Lemma fmap_absent_id i (f : MapLayer.t → MapLayer.t) ls :
  i ∉ layer_ids ls →
  (λ l, if decide (MapLayer.id l = i) then f l else l) <$> ls = ls.
Proof.
  induction ls as [|l ls IH]; [done|]; intros Hi.
  apply not_elem_of_cons in Hi as [Hne Hi].
  rewrite fmap_cons, decide_False by done. by rewrite IH.
Qed.

Lemma layer_ids_filter (P : MapLayer.t → Prop) `{!∀ l, Decision (P l)} ls :
  NoDup (layer_ids ls) → NoDup (layer_ids (filter P ls)).
Proof.
  induction ls as [|l ls IH]; [done|]. simpl. rewrite NoDup_cons; intros [Hl Hls].
  rewrite filter_cons. destruct (decide (P l)); [|by apply IH].
  simpl. apply NoDup_cons. split; [|by apply IH].
  intros Hin. apply Hl. unfold layer_ids in *.
  apply list_elem_of_fmap in Hin as (l' & -> & Hl').
  apply list_elem_of_fmap. exists l'. split; [done|].
  by apply list_elem_of_filter in Hl' as [_ ?].
Qed.

Lemma layer_ids_filter_ne i ls :
  i ∉ layer_ids (filter (λ l, MapLayer.id l ≠ i) ls).
Proof.
  unfold layer_ids. intros (l & -> & Hl)%list_elem_of_fmap.
  by apply list_elem_of_filter in Hl as [? _].
Qed.

Lemma layer_ids_fmap_preserving (f : MapLayer.t → MapLayer.t) ls :
  (∀ l, MapLayer.id (f l) = MapLayer.id l) → layer_ids (f <$> ls) = layer_ids ls.
Proof.
  intros Hf. unfold layer_ids. rewrite <- list_fmap_compose.
  apply list_fmap_ext. intros _ l _. apply Hf.
Qed.
End layer_lists.

(** *** [addLayer] on the layer list *)

Lemma layers_addLayer layer s : layers (addLayer layer s) = upsert layer (layers s).
Proof. done. Qed.

Section upsert.
Implicit Types (l layer : MapLayer.t) (ls acc : list MapLayer.t).

Lemma upsert_NoDup layer ls :
  NoDup (layer_ids ls) → NoDup (layer_ids (upsert layer ls)).
Proof.
  intros Hnd. unfold upsert. rewrite layer_ids_app. apply NoDup_app.
  split_and!.
  - by apply layer_ids_filter.
  - intros i Hi ->%list_elem_of_singleton. by apply layer_ids_filter_ne in Hi.
  - apply NoDup_singleton.
Qed.

Lemma elem_of_layer_ids_filter_ne i j ls :
  i ∈ layer_ids (filter (λ l, MapLayer.id l ≠ j) ls) ↔ i ∈ layer_ids ls ∧ i ≠ j.
Proof.
  unfold layer_ids. rewrite !list_elem_of_fmap. split.
  - intros (l & -> & [Hne Hl]%list_elem_of_filter). eauto.
  - intros [(l & -> & Hl) Hne]. exists l. split; [done|]. by apply list_elem_of_filter.
Qed.

Lemma upsert_ids layer ls :
  (list_to_set (layer_ids (upsert layer ls)) : gset string) =
  list_to_set (layer_ids ls) ∪ {[ MapLayer.id layer ]}.
Proof.
  apply set_eq. intros i. unfold upsert.
  rewrite layer_ids_app, list_to_set_app_L.
  rewrite !elem_of_union, !elem_of_list_to_set, elem_of_layer_ids_filter_ne.
  simpl. rewrite list_elem_of_singleton, elem_of_singleton.
  destruct (decide (i = MapLayer.id layer)); tauto.
Qed.

Lemma upsert_length_present layer ls :
  NoDup (layer_ids ls) → MapLayer.id layer ∈ layer_ids ls →
  length (upsert layer ls) = length ls.
Proof.
  intros Hnd Hin. unfold upsert. rewrite length_app. simpl.
  induction ls as [|l ls IH]; [by apply elem_of_nil in Hin|].
  simpl in Hnd. apply NoDup_cons in Hnd as [Hl Hnd].
  rewrite filter_cons. destruct (decide (MapLayer.id l ≠ MapLayer.id layer)) as [Hne|Heq].
  - simpl. apply elem_of_cons in Hin as [Heq|Hin]; [by destruct Hne|].
    by rewrite IH.
  - apply dec_stable in Heq. rewrite filter_absent_id; [simpl; lia|].
    by rewrite <- Heq.
Qed.

Lemma upsert_length_absent layer ls :
  MapLayer.id layer ∉ layer_ids ls → length (upsert layer ls) = S (length ls).
Proof.
  intros Hin. unfold upsert. rewrite filter_absent_id by done.
  rewrite length_app. simpl. lia.
Qed.

Lemma upsert_last layer ls : last (upsert layer ls) = Some layer.
Proof. unfold upsert. apply last_snoc. Qed.

Lemma filter_absent_ids_nil acc :
  filter (λ l, MapLayer.id l ∉ layer_ids []) acc = acc.
Proof.
  induction acc as [|x acc IH]; [done|].
  rewrite filter_cons_True by apply not_elem_of_nil. by rewrite IH.
Qed.

(** A whole sequence of [addLayer] calls, on the list. *)
Lemma foldl_upsert_keep_last ls acc :
  foldl (λ acc l, upsert l acc) acc ls =
  filter (λ l, MapLayer.id l ∉ layer_ids ls) acc ++ keep_last ls.
Proof.
  revert acc. induction ls as [|l ls IH]; intros acc; simpl.
  - rewrite app_nil_r. symmetry. apply filter_absent_ids_nil.
  - rewrite IH. unfold upsert. rewrite filter_app, list_filter_filter, <- app_assoc.
    f_equal.
    + apply list_filter_iff. intros x. rewrite not_elem_of_cons. tauto.
    + rewrite filter_cons, filter_nil.
      destruct (decide (MapLayer.id l ∈ layer_ids ls)) as [Hin|Hin].
      * by rewrite decide_False by (intros Hn; by apply Hn).
      * by rewrite decide_True by done.
Qed.

Lemma foldl_upsert_NoDup ls acc :
  NoDup (layer_ids acc) → NoDup (layer_ids (foldl (λ acc l, upsert l acc) acc ls)).
Proof.
  revert acc. induction ls as [|l ls IH]; intros acc Hnd; [done|].
  simpl. by apply IH, upsert_NoDup.
Qed.

Lemma foldl_upsert_ids ls acc :
  (list_to_set (layer_ids (foldl (λ acc l, upsert l acc) acc ls)) : gset string) =
  list_to_set (layer_ids acc) ∪ list_to_set (layer_ids ls).
Proof.
  revert acc. induction ls as [|l ls IH]; intros acc; simpl.
  - by rewrite (right_id_L ∅ (∪)).
  - rewrite IH, upsert_ids. by rewrite <- (assoc_L (∪)).
Qed.

Lemma length_distinct_ids ls : NoDup (layer_ids ls) → length ls = distinct_ids ls.
Proof.
  intros Hnd. unfold distinct_ids. rewrite size_list_to_set by done.
  unfold layer_ids. by rewrite length_fmap.
Qed.

Lemma foldl_upsert_length ls acc :
  NoDup (layer_ids acc) →
  length (foldl (λ acc l, upsert l acc) acc ls) = distinct_ids (acc ++ ls).
Proof.
  intros Hnd. rewrite length_distinct_ids by by apply foldl_upsert_NoDup.
  unfold distinct_ids. by rewrite foldl_upsert_ids, layer_ids_app, list_to_set_app_L.
Qed.

Lemma keep_last_NoDup_ids ls : NoDup (layer_ids ls) → keep_last ls = ls.
Proof.
  induction ls as [|l ls IH]; [done|]. simpl.
  intros [Hl Hnd]%NoDup_cons. rewrite decide_False by done. by rewrite IH.
Qed.
End upsert.

(** ** The world around the store *)

Lemma world_of_finally c f : world_of (finally c f) = f (world_of c).
Proof. by destruct c. Qed.

Lemma handleMapAction_store action w : store (handleMapAction action w) = store w.
Proof.
  unfold handleMapAction. destruct action as [a|]; [|done].
  repeat (case_match; try done).
Qed.

(** What the slice subscriber leaves of the store: everything but the slot. *)
Lemma w_setMapAction_store action w :
  store (w_setMapAction action w) = setMapAction action (store w) ∨
  store (w_setMapAction action w) = clearMapAction (store w).
Proof.
  unfold w_setMapAction. case_match; [|by left].
  destruct action as [a|]; [|by left]. right.
  cbn [pendingMapAction_listener update_store store].
  by rewrite handleMapAction_store.
Qed.

Lemma w_clearMapAction_store w :
  store (w_clearMapAction w) = clearMapAction (store w).
Proof. unfold w_clearMapAction. by case_match. Qed.

Lemma w_setMapAction_layers action w :
  layers (store (w_setMapAction action w)) = layers (store w).
Proof. by destruct (w_setMapAction_store action w) as [-> | ->]. Qed.

Lemma addLayers_layers ls w :
  layers (store (addLayers ls w)) =
  foldl (λ acc l, upsert l acc) (layers (store w)) (toLayer <$> ls).
Proof.
  unfold addLayers. revert w. induction ls as [|l ls IH]; intros w; [done|].
  simpl. by rewrite IH.
Qed.

(** The layer list after the resumed half of [sendMessage]. *)
Lemma sendMessage_resume_layers now result w :
  layers (store (world_of (sendMessage_resume now result w))) =
  match result with
  | Fulfilled (Json response) =>
    match ChatResponse.map_layers response with
    | Some ls => foldl (λ acc l, upsert l acc) [] (toLayer <$> ls)
    | None => layers (store w)
    end
  | _ => layers (store w)
  end.
Proof.
  unfold sendMessage_resume. rewrite world_of_finally.
  destruct result as [[response|]|]; try done.
  unfold sendMessage_try. simpl.
  destruct (ChatResponse.map_action response) as [a|];
    rewrite ?w_setMapAction_layers;
    destruct (ChatResponse.chart response) as [c|]; simpl;
    destruct (ChatResponse.map_layers response) as [ls|]; try done;
    by rewrite addLayers_layers.
Qed.

(** The resumed half never lets an exception out. *)
Lemma sendMessage_resume_normal now result w :
  ∃ w', sendMessage_resume now result w = Normal w'.
Proof.
  unfold sendMessage_resume. destruct result as [[response|]|]; simpl; eauto.
Qed.

(** * The claims *)

(** C1. After a call of [sendMessage] has settled, [isLoading] is false:
    whatever the world looked like when the call resumed after its [await]
    and however the chat call settled (a body with any status, a body that
    cannot be read, a rejection), and so also for a whole call, whatever
    the query and whatever the HTTP request did. *)
Theorem sendMessage_settles_not_loading :
  (∀ now result w,
     isLoading (store (world_of (sendMessage_resume now result w))) = false) ∧
  (∀ t0 t1 query post w,
     isLoading (store (world_of (sendMessage t0 t1 query post w))) = false).
Proof.
  assert (∀ now result w,
    isLoading (store (world_of (sendMessage_resume now result w))) = false) as H.
  { intros now result w. unfold sendMessage_resume. by rewrite world_of_finally. }
  split; [done|]. intros. apply H.
Qed.

(** C2 as stated fails: a response whose two layers share the id [a]
    leaves one layer in the store, not the two that were returned. *)
Lemma sendMessage_twin_layers_not_both_kept :
  ChatResponse.map_layers (respond_with_layers twin_layers) = Some twin_layers ∧
  layers (store (world_of
    (sendMessage 0 1 "show" (Fulfilled (Json (respond_with_layers twin_layers)))
       (initialWorld 0)))) ≠ toLayer <$> twin_layers.
Proof.
  split; [done|]. intros H. apply (f_equal length) in H.
  unfold sendMessage in H. rewrite sendMessage_resume_layers in H.
  vm_compute in H. discriminate.
Qed.

(** C2, amended. When the response carries [map_layers], the layer list
    after the call is built from the returned layers alone: it is the
    returned layers (as store layers: named by their id, visible, opacity 1)
    with each id keeping only its last occurrence; so it is exactly the
    returned layers when their ids are pairwise distinct, and it is empty
    when the returned list is empty. No prior layer survives. *)
Theorem sendMessage_replaces_layers now response ls w :
  ChatResponse.map_layers response = Some ls →
  let after :=
    layers (store (world_of (sendMessage_resume now (Fulfilled (Json response)) w))) in
  after = keep_last (toLayer <$> ls) ∧
  (NoDup (WireLayer.id <$> ls) → after = toLayer <$> ls) ∧
  (ls = [] → after = []).
Proof.
  intros Hls after. subst after.
  rewrite sendMessage_resume_layers, Hls, foldl_upsert_keep_last.
  rewrite filter_nil, app_nil_l. split_and!; [done| |by intros ->].
  intros Hnd. apply keep_last_NoDup_ids.
  unfold layer_ids. rewrite <- list_fmap_compose. exact Hnd.
Qed.

Lemma sendMessage_replaces_layers_witness :
  let w := update_store (addLayer (toLayer {|
      WireLayer.id := "old"; WireLayer.type := "geojson";
      WireLayer.source := JNull; WireLayer.paint := None |})) (initialWorld 0) in
  let after := layers (store (world_of
    (sendMessage_resume 1 (Fulfilled (Json (respond_with_layers twin_layers))) w))) in
  after = keep_last (toLayer <$> twin_layers) ∧
  (NoDup (WireLayer.id <$> twin_layers) → after = toLayer <$> twin_layers) ∧
  (twin_layers = [] → after = []).
Proof.
  apply (sendMessage_replaces_layers 1 (respond_with_layers twin_layers) twin_layers).
  reflexivity.
Defined.

(** C3. [addLayer(L)] drops every layer whose id is that of [L] and appends
    [L] at the tail. After any sequence of [addLayer] calls on a list with
    unique ids (the empty list in particular) the number of layers is the
    number of distinct ids among the old and the added layers; re-adding an
    id that is present keeps the count and leaves the new layer last. *)
Theorem addLayer_upsert_reorder :
  (∀ layer s,
     layers (addLayer layer s) =
       filter (λ l, MapLayer.id l ≠ MapLayer.id layer) (layers s) ++ [layer] ∧
     with_layers (layers s) (addLayer layer s) = s) ∧
  (∀ seq s, layers s = [] →
     length (layers (foldl (λ s layer, addLayer layer s) s seq)) = distinct_ids seq) ∧
  (∀ seq s, NoDup (layer_ids (layers s)) →
     length (layers (foldl (λ s layer, addLayer layer s) s seq)) =
       distinct_ids (layers s ++ seq)) ∧
  (∀ layer s, NoDup (layer_ids (layers s)) →
     MapLayer.id layer ∈ layer_ids (layers s) →
     length (layers (addLayer layer s)) = length (layers s) ∧
     last (layers (addLayer layer s)) = Some layer ∧
     MapLayer.id layer ∉
       layer_ids (take (length (layers s) - 1) (layers (addLayer layer s)))).
Proof.
  assert (∀ seq s, layers (foldl (λ s layer, addLayer layer s) s seq) =
                   foldl (λ acc l, upsert l acc) (layers s) seq) as Hfold.
  { induction seq as [|l seq IH]; intros s; [done|]. simpl. by rewrite IH. }
  split_and!.
  - intros layer s. split; [done|]. destruct s; done.
  - intros seq s Hs. rewrite Hfold, Hs, foldl_upsert_length by constructor. done.
  - intros seq s Hnd. by rewrite Hfold, foldl_upsert_length.
  - intros layer s Hnd Hin. rewrite layers_addLayer. split_and!.
    + by apply upsert_length_present.
    + apply upsert_last.
    + pose proof (upsert_length_present layer (layers s) Hnd Hin) as Hlen.
      unfold upsert in *. rewrite length_app in Hlen. simpl in Hlen.
      rewrite take_app_length'; [apply layer_ids_filter_ne|lia].
Qed.

Lemma addLayer_upsert_reorder_witness :
  let s := store (world_of
    (sendMessage_resume 1 (Fulfilled (Json (respond_with_layers twin_layers)))
       (initialWorld 0))) in
  let layer := toLayer {|
      WireLayer.id := "a"; WireLayer.type := "heatmap";
      WireLayer.source := JNull; WireLayer.paint := None |} in
  length (layers (addLayer layer s)) = length (layers s) ∧
  last (layers (addLayer layer s)) = Some layer ∧
  MapLayer.id layer ∉
    layer_ids (take (length (layers s) - 1) (layers (addLayer layer s))).
Proof.
  intros s layer.
  apply (proj2 (proj2 (proj2 addLayer_upsert_reorder)) layer s).
  - vm_compute. apply NoDup_singleton.
  - vm_compute. apply list_elem_of_here.
Defined.

(** ** The map-action slot *)

Lemma camera_update_store f w : camera (update_store f w) = camera w.
Proof. done. Qed.

Lemma addLayers_world ls w :
  pendingMapAction (store (addLayers ls w)) = pendingMapAction (store w) ∧
  camera (addLayers ls w) = camera w.
Proof.
  unfold addLayers. revert w. induction ls as [|l ls IH]; intros w; [done|].
  simpl. by destruct (IH (update_store (addLayer (toLayer l)) w)) as [-> ->].
Qed.

(** An operation that enqueues nothing leaves an empty slot empty and
    issues no camera command. *)
Lemma step_idle op w :
  enqueues op = false → pendingMapAction (store w) = None →
  pendingMapAction (store (step w op)) = None ∧ camera (step w op) = camera w.
Proof.
  intros Hop Hw. destruct op; simpl in *; try done.
  - (* setMapAction(null) *)
    destruct action; [done|]. unfold w_setMapAction. simpl. rewrite Hw.
    by rewrite andb_false_r.
  - unfold w_clearMapAction. simpl. rewrite Hw. by rewrite andb_false_r.
  - unfold sendMessage_resume. rewrite world_of_finally. simpl.
    destruct result as [[response|]|]; simpl; try done.
    apply bool_decide_eq_false in Hop.
    destruct (ChatResponse.map_action response) as [a|]; [by destruct Hop|].
    destruct (ChatResponse.chart response), (ChatResponse.map_layers response);
      simpl; try done;
      by destruct (addLayers_world l
        (update_store clearLayers
           (update_store (addMessage now (assistant_message response)) w)))
        as [-> ->].
Qed.

Lemma run_idle ops w :
  Forall (λ op, enqueues op = false) ops → pendingMapAction (store w) = None →
  pendingMapAction (store (run ops w)) = None ∧ camera (run ops w) = camera w.
Proof.
  intros Hops. revert w. induction Hops as [|op ops Hop _ IH]; intros w Hw; [done|].
  unfold run in *. simpl. destruct (step_idle op w Hop Hw) as [Hslot Hcam].
  destruct (IH _ Hslot) as [? ->]. done.
Qed.

(** C4 as stated fails: with the map mounted and the observer subscribed,
    a [fitBounds] action that carries no bounds is taken out of the slot
    without any camera command being issued. *)
Lemma fitBounds_without_bounds_issues_no_command :
  let w := set_mapMounted true (subscribe (initialWorld 0)) in
  let w' := w_setMapAction (Some fitBounds_without_bounds) w in
  pendingMapAction (store w') = None ∧
  ¬ ∃ c, camera w' = camera w ++ [c].
Proof.
  split; [done|]. intros [c Hc]. vm_compute in Hc. discriminate.
Qed.

(** Writing into the slot the very object that rests in it is no change
    of the slice: the subscriber is not called, no command is issued, and
    the action stays pending. *)
Lemma resting_action_rewritten_silently a b w :
  pendingMapAction (store w) = Some b → MapAction.ref b = MapAction.ref a →
  pendingMapAction (store (w_setMapAction (Some a) w)) = Some a ∧
  camera (w_setMapAction (Some a) w) = camera w.
Proof.
  intros Hb Href. unfold w_setMapAction. rewrite Hb. simpl.
  by rewrite (bool_decide_eq_true_2 _ Href), andb_false_r.
Qed.

(** C4, amended. While the observer is subscribed, writing into the slot
    an action that is not the object already resting there notifies it
    once, and it leaves the slot empty. It issues one
    [flyTo] command (zoom 12, pitch 0, bearing 0, duration 2000 for the
    fields that are absent) when the map is mounted and the action is a
    [flyTo]; one [fitBounds] command with padding 50 and duration 2000 when
    the map is mounted and the action is a [fitBounds] that carries bounds;
    and no command otherwise. Afterwards, whatever happens that enqueues
    no new action (subscribing again included) issues no command and
    leaves the slot empty. *)
Theorem map_action_consumed_once a w :
  subscribed w = true →
  (∀ b, pendingMapAction (store w) = Some b → MapAction.ref b ≠ MapAction.ref a) →
  let w' := w_setMapAction (Some a) w in
  pendingMapAction (store w') = None ∧
  (mapMounted w = true → MapAction.type a = "flyTo" →
     camera w' = camera w ++
       [FlyTo (MapAction.center a)
          (or_default (MapAction.zoom a) 12%Q)
          (or_default (MapAction.pitch a) 0%Q)
          (or_default (MapAction.bearing a) 0%Q)
          (or_default (MapAction.duration a) 2000%Q)]) ∧
  (∀ d, or_default None d = d) ∧
  (mapMounted w = true → MapAction.type a = "fitBounds" →
     ∀ b, MapAction.bounds a = Some b →
     camera w' = camera w ++ [FitBounds b 50%Q 2000%Q]) ∧
  (mapMounted w = false ∨
   (MapAction.type a ≠ "flyTo" ∧
    (MapAction.type a ≠ "fitBounds" ∨ MapAction.bounds a = None)) →
     camera w' = camera w) ∧
  (∀ ops, Forall (λ op, enqueues op = false) ops →
     camera (run ops w') = camera w' ∧
     pendingMapAction (store (run ops w')) = None).
Proof.
  intros Hsub Hnew w'.
  assert (w' = update_store clearMapAction
                 (handleMapAction (Some a) (update_store (setMapAction (Some a)) w)))
    as Hw'.
  { subst w'. unfold w_setMapAction. simpl. rewrite Hsub.
    destruct (pendingMapAction (store w)) as [b|]; [|done]. simpl.
    by rewrite (bool_decide_eq_false_2 _ (Hnew b eq_refl)). }
  assert (pendingMapAction (store w') = None) as Hslot by by rewrite Hw'.
  split_and!; [done| | done | | |].
  - intros Hm Hty. rewrite Hw', camera_update_store. unfold handleMapAction.
    simpl. rewrite Hm. simpl. by rewrite decide_True.
  - intros Hm Hty b Hb. rewrite Hw', camera_update_store. unfold handleMapAction.
    simpl. rewrite Hm. simpl. rewrite Hty. simpl. by rewrite Hb.
  - intros Hno. rewrite Hw', camera_update_store. unfold handleMapAction.
    simpl. destruct Hno as [-> | [Hfly Hfit]]; [done|].
    destruct (mapMounted w); [|done]. simpl.
    rewrite decide_False by done.
    destruct Hfit as [Hfit| ->]; [by rewrite decide_False|by case_decide].
  - intros ops Hops. by destruct (run_idle ops w' Hops Hslot) as [? ?].
Qed.

Lemma map_action_consumed_once_witness :
  let w := subscribe (w_setMapAction (Some fitBounds_without_bounds)
             (set_mapMounted true (initialWorld 0))) in
  let w' := w_setMapAction (Some flyTo_Astana) w in
  pendingMapAction (store w) = Some fitBounds_without_bounds ∧
  pendingMapAction (store w') = None ∧
  camera w' = [FlyTo (Some (71.4491%Q, 51.1801%Q)) 12%Q 0%Q 0%Q 2000%Q] ∧
  camera (run [OUnsubscribe; OSubscribe; OToggle3D] w') = camera w'.
Proof.
  intros w w'.
  assert (∀ b, pendingMapAction (store w) = Some b →
               MapAction.ref b ≠ MapAction.ref flyTo_Astana) as Hnew.
  { intros b Hb. injection Hb as <-. simpl. lia. }
  destruct (map_action_consumed_once flyTo_Astana w eq_refl Hnew)
    as (Hslot & Hfly & _ & _ & _ & Hlater).
  split_and!; [reflexivity|exact Hslot|exact (Hfly eq_refl eq_refl)|].
  apply (Hlater [OUnsubscribe; OSubscribe; OToggle3D]).
  repeat constructor.
Defined.

(** ** Transport failure *)

Lemma string_app_assoc (s1 s2 s3 : string) :
  ((s1 ++ s2) ++ s3 = s1 ++ (s2 ++ s3))%string.
Proof.
  induction s1 as [|c s1 IH]; [done|].
  change (String c ((s1 ++ s2) ++ s3) = String c (s1 ++ (s2 ++ s3)))%string.
  by rewrite IH.
Qed.

(** C5. When the HTTP request fails, [geoApi.chat] answers with a response
    it makes up itself, of status [error]; [sendMessage] completes normally;
    the chat log grows by the user message and by one assistant message
    that carries the made-up failure text (it says that the backend server
    might not be running); the layer list and the chart are as they were,
    and loading is off. The same holds for the resumed half alone, in
    whatever world it resumes. *)
Theorem sendMessage_transport_failure t0 t1 query w :
  let failure := stamp t1 (assistant_message (fallback_response query)) in
  chat query Rejected = Fulfilled (Json (fallback_response query)) ∧
  ChatResponse.status (fallback_response query) = "error" ∧
  ChatMessage.role failure = assistant ∧
  (∃ before after : string,
     ChatMessage.content failure =
       (before ++ "The backend server might not be running" ++ after)%string) ∧
  (∃ w', sendMessage_resume t1 (chat query Rejected) w = Normal w' ∧
     messages (store w') = messages (store w) ++ [failure] ∧
     layers (store w') = layers (store w) ∧
     currentChart (store w') = currentChart (store w) ∧
     isLoading (store w') = false) ∧
  (∃ w', sendMessage t0 t1 query Rejected w = Normal w' ∧
     messages (store w') =
       messages (store w) ++ [stamp t0 (user_message query); failure] ∧
     layers (store w') = layers (store w) ∧
     currentChart (store w') = currentChart (store w) ∧
     isLoading (store w') = false).
Proof.
  intros failure. split_and!; try done.
  - exists ("I received your query: " ++ dq ++ query ++ dq ++ ". ")%string,
      ". Please start the backend with: `cd backend && python main.py`"%string.
    subst failure.
    cbn [ChatMessage.content stamp assistant_message NewMessage.content
           ChatResponse.message fallback_response].
    unfold fallback_message. by rewrite !string_app_assoc.
  - eexists. split; [reflexivity|]. done.
  - eexists. split; [reflexivity|]. simpl. by rewrite <- app_assoc.
Qed.

(** ** Uniqueness of layer ids *)

Lemma step_NoDup op w :
  NoDup (layer_ids (layers (store w))) →
  NoDup (layer_ids (layers (store (step w op)))).
Proof.
  intros Hnd. destruct op; cbn [step]; try exact Hnd.
  - by apply upsert_NoDup.
  - by apply layer_ids_filter.
  - constructor.
  - cbn. rewrite layer_ids_fmap_preserving; [done|]. intros l. by case_decide.
  - cbn. rewrite layer_ids_fmap_preserving; [done|]. intros l. by case_decide.
  - by rewrite w_setMapAction_layers.
  - by rewrite w_clearMapAction_store.
  - rewrite sendMessage_resume_layers.
    destruct result as [[response|]|]; try done.
    destruct (ChatResponse.map_layers response); [|done].
    apply foldl_upsert_NoDup. constructor.
Qed.

(** C6. In every world reached from a fresh store by any run of store
    actions, halves of [sendMessage] calls (whatever the responses hold,
    repeated ids included) and mountings of the map surface, the ids of
    the layer list are pairwise distinct. *)
Theorem layer_ids_unique now ops :
  NoDup (layer_ids (layers (store (run ops (initialWorld now))))).
Proof.
  assert (∀ w, NoDup (layer_ids (layers (store w))) →
               NoDup (layer_ids (layers (store (run ops w))))) as H.
  { unfold run. induction ops as [|op ops IH]; intros w Hw; [done|].
    simpl. by apply IH, step_NoDup. }
  apply H. constructor.
Qed.

(** C7. [clearMessages] leaves exactly one message, of role [assistant]
    (so not [user]), and no chart; no other field of the store changes. *)
Theorem clearMessages_single_assistant now s :
  ∃ m, messages (clearMessages now s) = [m] ∧
       ChatMessage.role m = assistant ∧
       ChatMessage.role m ≠ user ∧
       currentChart (clearMessages now s) = None ∧
       with_currentChart (currentChart s)
         (with_messages (messages s) (clearMessages now s)) = s.
Proof.
  exists (cleared_message now). split_and!; try done. by destruct s.
Qed.

(** C8. [toggle3D] negates [is3DEnabled] and sets the pitch to 45 when it
    turns 3D on and to 0 when it turns it off, whatever the pitch was; the
    rest of the view state is kept. From 3D off, one toggle gives 3D on at
    pitch 45 and a second one 3D off at pitch 0. *)
Theorem toggle3D_couples_pitch s :
  is3DEnabled (toggle3D s) = negb (is3DEnabled s) ∧
  (is3DEnabled s = false →
     is3DEnabled (toggle3D s) = true ∧
     MapViewState.pitch (viewState (toggle3D s)) = 45%Q ∧
     is3DEnabled (toggle3D (toggle3D s)) = false ∧
     MapViewState.pitch (viewState (toggle3D (toggle3D s))) = 0%Q) ∧
  (is3DEnabled s = true →
     is3DEnabled (toggle3D s) = false ∧
     MapViewState.pitch (viewState (toggle3D s)) = 0%Q) ∧
  put_pitch (MapViewState.pitch (viewState s)) (viewState (toggle3D s)) = viewState s.
Proof.
  split_and!.
  - done.
  - intros H. unfold toggle3D. simpl. by rewrite H.
  - intros H. unfold toggle3D. simpl. by rewrite H.
  - unfold toggle3D. simpl. by destruct (viewState s).
Qed.

Lemma toggle3D_couples_pitch_witness :
  let s := initialState 0 in
  is3DEnabled (toggle3D s) = true ∧
  MapViewState.pitch (viewState (toggle3D s)) = 45%Q ∧
  is3DEnabled (toggle3D (toggle3D s)) = false ∧
  MapViewState.pitch (viewState (toggle3D (toggle3D s))) = 0%Q.
Proof.
  exact (proj1 (proj2 (toggle3D_couples_pitch (initialState 0))) eq_refl).
Defined.

(** C9. Two calls of [toggleLayerVisibility] with the same id give back the
    store they started from: every layer, with all its fields, and every
    other field of the store. *)
Theorem toggleLayerVisibility_twice layerId s :
  toggleLayerVisibility layerId (toggleLayerVisibility layerId s) = s.
Proof.
  destruct s as [v ls b e a ms ld c sb p sc sh].
  unfold toggleLayerVisibility, with_layers. cbn. f_equal.
  rewrite <- list_fmap_compose. rewrite <- (list_fmap_id ls) at 2.
  apply list_fmap_ext. intros _ l _. simpl.
  destruct (decide (MapLayer.id l = layerId)) as [Heq|Hne].
  - simpl. rewrite decide_True by done. apply flip_visible_involutive.
  - by rewrite decide_False.
Qed.

(** C10. For an id that no layer of the list has, [removeLayer],
    [toggleLayerVisibility] and [setLayerOpacity] each return the store
    they were given. *)
Theorem absent_id_no_op layerId opacity s :
  layerId ∉ layer_ids (layers s) →
  removeLayer layerId s = s ∧
  toggleLayerVisibility layerId s = s ∧
  setLayerOpacity layerId opacity s = s.
Proof.
  intros Habs. split_and!.
  - unfold removeLayer. by rewrite filter_absent_id, with_layers_same.
  - unfold toggleLayerVisibility. by rewrite fmap_absent_id, with_layers_same.
  - unfold setLayerOpacity. by rewrite fmap_absent_id, with_layers_same.
Qed.

Lemma absent_id_no_op_witness :
  let s := store (world_of
    (sendMessage_resume 1 (Fulfilled (Json (respond_with_layers twin_layers)))
       (initialWorld 0))) in
  removeLayer "b" s = s ∧
  toggleLayerVisibility "b" s = s ∧
  setLayerOpacity "b" 0.5%Q s = s.
Proof.
  intros s. apply (absent_id_no_op "b" 0.5%Q s).
  vm_compute. intros Hin. inversion Hin as [|? ? ? Hin']. inversion Hin'.
Defined.

(** * Further properties of the store *)

(** X1. [setViewState] gives each of the five fields of the view state the
    number its argument names for it and keeps the field when the argument
    does not name it; it touches nothing but the view state; with no field
    named it changes nothing; two calls in a row act as one call with the
    two arguments merged, the later one winning. *)
Theorem setViewState_merges p q s :
  let before := viewState s in
  let after := viewState (setViewState p s) in
  MapViewState.longitude after =
    default (MapViewState.longitude before) (PartialViewState.longitude p) ∧
  MapViewState.latitude after =
    default (MapViewState.latitude before) (PartialViewState.latitude p) ∧
  MapViewState.zoom after =
    default (MapViewState.zoom before) (PartialViewState.zoom p) ∧
  MapViewState.pitch after =
    default (MapViewState.pitch before) (PartialViewState.pitch p) ∧
  MapViewState.bearing after =
    default (MapViewState.bearing before) (PartialViewState.bearing p) ∧
  with_viewState before (setViewState p s) = s ∧
  setViewState no_change s = s ∧
  setViewState q (setViewState p s) = setViewState (then_partial p q) s.
Proof.
  destruct s as [[lo la zo pi be] ls b e a ms ld c sb pn sc sh].
  split_and!; try done.
  destruct p as [[?|] [?|] [?|] [?|] [?|]], q as [[?|] [?|] [?|] [?|] [?|]]; done.
Qed.

(** X2. [removeLayer] takes away every layer of the given id and nothing
    else, keeping the order of the rest; doing it twice is doing it once,
    and removals of two ids can be done in either order. *)
Theorem removeLayer_removes i j s :
  (i ∉ layer_ids (layers (removeLayer i s))) ∧
  (∀ l, l ∈ layers (removeLayer i s) ↔ l ∈ layers s ∧ MapLayer.id l ≠ i) ∧
  (layers (removeLayer i s) `sublist_of` layers s) ∧
  with_layers (layers s) (removeLayer i s) = s ∧
  removeLayer i (removeLayer i s) = removeLayer i s ∧
  removeLayer i (removeLayer j s) = removeLayer j (removeLayer i s).
Proof.
  split_and!.
  - apply layer_ids_filter_ne.
  - intros l. unfold removeLayer. simpl. rewrite list_elem_of_filter. tauto.
  - apply sublist_filter.
  - by destruct s.
  - unfold removeLayer, with_layers. simpl. f_equal. rewrite list_filter_filter.
    apply list_filter_iff. tauto.
  - unfold removeLayer, with_layers. simpl. f_equal. rewrite !list_filter_filter.
    apply list_filter_iff. tauto.
Qed.

(** X3. Removing the id of a layer right after adding it undoes the
    addition: the store is the one [removeLayer] alone would give, and it
    is the store from before when that id was not in the list. *)
Theorem removeLayer_after_addLayer layer s :
  removeLayer (MapLayer.id layer) (addLayer layer s) =
    removeLayer (MapLayer.id layer) s ∧
  (MapLayer.id layer ∉ layer_ids (layers s) →
   removeLayer (MapLayer.id layer) (addLayer layer s) = s).
Proof.
  assert (removeLayer (MapLayer.id layer) (addLayer layer s) =
          removeLayer (MapLayer.id layer) s) as H.
  { unfold removeLayer, addLayer, with_layers. simpl. f_equal.
    rewrite filter_app, filter_cons_False, filter_nil, app_nil_r by (by intros ?).
    rewrite list_filter_filter. apply list_filter_iff. tauto. }
  split; [done|]. intros Habs. rewrite H. unfold removeLayer.
  by rewrite filter_absent_id, with_layers_same.
Qed.

Lemma removeLayer_after_addLayer_witness :
  let layer := toLayer {|
      WireLayer.id := "rivers"; WireLayer.type := "line";
      WireLayer.source := JNull; WireLayer.paint := None |} in
  removeLayer "rivers" (addLayer layer (initialState 0)) = initialState 0.
Proof.
  intros layer.
  apply (proj2 (removeLayer_after_addLayer layer (initialState 0))).
  vm_compute. apply not_elem_of_nil.
Defined.

(** X4. [setLayerOpacity] stores the value it is given, unclamped, in every
    layer of that id and changes no other field of any layer; ids, order
    and length of the list stay; of two calls for one id the later wins. *)
Theorem setLayerOpacity_stores i v v' s :
  (∀ l, l ∈ layers (setLayerOpacity i v s) → MapLayer.id l = i →
        MapLayer.opacity l = v) ∧
  layer_ids (layers (setLayerOpacity i v s)) = layer_ids (layers s) ∧
  (MapLayer.visible <$> layers (setLayerOpacity i v s)) =
    (MapLayer.visible <$> layers s) ∧
  length (layers (setLayerOpacity i v s)) = length (layers s) ∧
  setLayerOpacity i v' (setLayerOpacity i v s) = setLayerOpacity i v' s.
Proof.
  split_and!.
  - intros l Hl Hid. unfold setLayerOpacity in Hl. simpl in Hl.
    apply list_elem_of_fmap in Hl as (l0 & -> & _).
    by destruct (decide (MapLayer.id l0 = i)) as [?|Hne].
  - unfold setLayerOpacity. simpl. apply layer_ids_fmap_preserving.
    intros l. by case_decide.
  - unfold setLayerOpacity. simpl. rewrite <- list_fmap_compose.
    apply list_fmap_ext. intros _ l _. simpl. by case_decide.
  - unfold setLayerOpacity. simpl. apply length_fmap.
  - unfold setLayerOpacity, with_layers. simpl. f_equal. rewrite <- list_fmap_compose.
    apply list_fmap_ext. intros _ l _. simpl.
    destruct (decide (MapLayer.id l = i)) as [Heq|Hne].
    + simpl. by rewrite decide_True.
    + by rewrite decide_False.
Qed.

Lemma setLayerOpacity_stores_witness :
  let layer := toLayer {|
      WireLayer.id := "rivers"; WireLayer.type := "line";
      WireLayer.source := JNull; WireLayer.paint := None |} in
  let s := addLayer layer (initialState 0) in
  put_opacity 7.5%Q layer ∈ layers (setLayerOpacity "rivers" 7.5%Q s) ∧
  MapLayer.opacity (put_opacity 7.5%Q layer) = 7.5%Q.
Proof.
  intros layer s.
  assert (put_opacity 7.5%Q layer ∈ layers (setLayerOpacity "rivers" 7.5%Q s)) as Hin
    by (vm_compute; apply list_elem_of_here).
  split; [exact Hin|].
  exact (proj1 (setLayerOpacity_stores "rivers" 7.5%Q 0%Q s) _ Hin eq_refl).
Defined.

(** X5. Visibility toggles and opacity writes do not disturb one another:
    a toggle and an opacity write, or two toggles, give the same store in
    either order, and a toggle changes neither ids nor opacities. *)
Theorem layer_updates_commute i j v s :
  toggleLayerVisibility i (setLayerOpacity j v s) =
    setLayerOpacity j v (toggleLayerVisibility i s) ∧
  toggleLayerVisibility i (toggleLayerVisibility j s) =
    toggleLayerVisibility j (toggleLayerVisibility i s) ∧
  layer_ids (layers (toggleLayerVisibility i s)) = layer_ids (layers s) ∧
  (MapLayer.opacity <$> layers (toggleLayerVisibility i s)) =
    (MapLayer.opacity <$> layers s).
Proof.
  split_and!.
  - unfold toggleLayerVisibility, setLayerOpacity, with_layers. simpl. f_equal.
    rewrite <- !list_fmap_compose. apply list_fmap_ext. intros _ l _. simpl.
    destruct (decide (MapLayer.id l = i)), (decide (MapLayer.id l = j));
      simpl; repeat case_decide; done.
  - unfold toggleLayerVisibility, with_layers. simpl. f_equal.
    rewrite <- !list_fmap_compose. apply list_fmap_ext. intros _ l _. simpl.
    destruct (decide (MapLayer.id l = i)), (decide (MapLayer.id l = j));
      simpl; repeat case_decide; done.
  - unfold toggleLayerVisibility. simpl. apply layer_ids_fmap_preserving.
    intros l. by case_decide.
  - unfold toggleLayerVisibility. simpl. rewrite <- list_fmap_compose.
    apply list_fmap_ext. intros _ l _. simpl. by case_decide.
Qed.

(** ** The chat log *)

Lemma addLayers_store ls w :
  addLayers ls w =
  update_store
    (with_layers (foldl (λ acc l, upsert l acc) (layers (store w)) (toLayer <$> ls))) w.
Proof.
  unfold addLayers. revert w. induction ls as [|l ls IH]; intros w.
  - destruct w as [s ? ? ?]. unfold update_store. simpl. by rewrite with_layers_same.
  - simpl. by rewrite IH.
Qed.

(** The subscriber writes nothing but the slot. *)
Lemma w_setMapAction_frame action w :
  with_pendingMapAction (pendingMapAction (store w)) (store (w_setMapAction action w)) =
  store w.
Proof.
  destruct (w_setMapAction_store action w) as [-> | ->]; by destruct (store w).
Qed.

Lemma w_setMapAction_messages action w :
  messages (store (w_setMapAction action w)) = messages (store w).
Proof. by destruct (w_setMapAction_store action w) as [-> | ->]. Qed.

Lemma w_setMapAction_currentChart action w :
  currentChart (store (w_setMapAction action w)) = currentChart (store w).
Proof. by destruct (w_setMapAction_store action w) as [-> | ->]. Qed.

(** The chat log and the chart after the resumed half of [sendMessage]. *)
Lemma sendMessage_resume_messages now result w :
  messages (store (world_of (sendMessage_resume now result w))) =
  messages (store w) ++
    [stamp now match result with
               | Fulfilled (Json response) => assistant_message response
               | _ => failure_message
               end].
Proof.
  unfold sendMessage_resume. rewrite world_of_finally.
  destruct result as [[response|]|]; try done.
  unfold sendMessage_try. cbn [try_catch world_of].
  destruct (ChatResponse.map_action response) as [a|];
    cbn [update_store store setLoading with_isLoading messages];
    rewrite ?w_setMapAction_messages;
    destruct (ChatResponse.chart response) as [c|];
    destruct (ChatResponse.map_layers response) as [ls|];
    rewrite ?addLayers_store; done.
Qed.

Lemma sendMessage_resume_currentChart now result w :
  currentChart (store (world_of (sendMessage_resume now result w))) =
  match result with
  | Fulfilled (Json response) =>
    from_option Some (currentChart (store w)) (ChatResponse.chart response)
  | _ => currentChart (store w)
  end.
Proof.
  unfold sendMessage_resume. rewrite world_of_finally.
  destruct result as [[response|]|]; try done.
  unfold sendMessage_try. cbn [try_catch world_of].
  destruct (ChatResponse.map_action response) as [a|];
    cbn [update_store store setLoading with_isLoading currentChart];
    rewrite ?w_setMapAction_currentChart;
    destruct (ChatResponse.chart response) as [c|];
    destruct (ChatResponse.map_layers response) as [ls|];
    rewrite ?addLayers_store; done.
Qed.

(** What one operation does to the chat log: it appends to it, or it is
    [clearMessages]. *)
Lemma step_messages op w :
  (∃ more, messages (store (step w op)) = messages (store w) ++ more) ∨
  (∃ now, op = OClearMessages now ∧
          messages (store (step w op)) = [cleared_message now]).
Proof.
  destruct op; cbn [step];
    try (left; exists []; by rewrite app_nil_r);
    try (left; eexists; reflexivity).
  - left. exists []. by rewrite app_nil_r, w_setMapAction_messages.
  - left. exists []. by rewrite app_nil_r, w_clearMapAction_store.
  - right. by exists now.
  - left. eexists. apply sendMessage_resume_messages.
Qed.

(** X6. The chat log is append-only: over any run without a call of
    [clearMessages] (calls of [sendMessage], overlapping or not, included)
    the log of the start is a prefix of the log of the end, so no message
    is ever changed or dropped; each operation keeps the log or extends
    it. *)
Theorem messages_append_only ops w :
  Forall (λ op, ∀ now, op ≠ OClearMessages now) ops →
  messages (store w) `prefix_of` messages (store (run ops w)).
Proof.
  intros Hops. revert w. induction Hops as [|op ops Hop _ IH]; intros w; [done|].
  unfold run in *. simpl. etrans; [|apply IH].
  destruct (step_messages op w) as [[more ->]|(now & -> & _)].
  - by apply prefix_app_r.
  - by destruct (Hop now).
Qed.

Lemma messages_append_only_witness :
  let ops := [OSendMessageBegin 1 "show fires";
              OToggle3D;
              OSendMessageBegin 2 "show air quality";
              OSendMessageResume 3 Rejected;
              OSendMessageResume 4 (Fulfilled (Json (respond_with_layers twin_layers)))] in
  messages (store (initialWorld 0)) `prefix_of`
    messages (store (run ops (initialWorld 0))).
Proof.
  intros ops. apply (messages_append_only ops (initialWorld 0)).
  repeat constructor; intros now; discriminate.
Defined.

(** X7. In every world reached from a fresh store the chat log is not
    empty and its first message is the assistant's (the welcome message,
    or the one [clearMessages] wrote), never the user's. *)
Theorem first_message_is_assistant now ops :
  ∃ m rest, messages (store (run ops (initialWorld now))) = m :: rest ∧
            ChatMessage.role m = assistant.
Proof.
  assert (∀ w, (∃ m rest, messages (store w) = m :: rest ∧
                          ChatMessage.role m = assistant) →
               ∃ m rest, messages (store (run ops w)) = m :: rest ∧
                         ChatMessage.role m = assistant) as H.
  { unfold run. induction ops as [|op ops IH]; intros w Hw; [done|].
    simpl. apply IH. destruct Hw as (m & rest & Hm & Hrole).
    destruct (step_messages op w) as [[more ->]|(t & _ & ->)].
    - exists m, (rest ++ more). by rewrite Hm.
    - by exists (cleared_message t), []. }
  apply H. by eexists _, [].
Qed.

(** X8. A call of [sendMessage] that nothing interleaves with adds exactly
    two messages to the log, whatever the HTTP request did: the user's,
    with the query as its text, then one of the assistant: the text of the
    response, the text [geoApi.chat] makes up when the request failed, or
    the failure text of [sendMessage] when the body cannot be read. The
    call completes normally in each case. *)
Theorem sendMessage_adds_two_messages t0 t1 query post w :
  ∃ w', sendMessage t0 t1 query post w = Normal w' ∧
    messages (store w') =
      messages (store w) ++
        [stamp t0 (user_message query); stamp t1 (reply_message query post)] ∧
    NewMessage.role (reply_message query post) = assistant ∧
    ChatMessage.content (stamp t0 (user_message query)) = query ∧
    ChatMessage.role (stamp t0 (user_message query)) = user.
Proof.
  destruct (sendMessage_resume_normal t1 (chat query post)
              (sendMessage_begin t0 query w)) as [w' Hw'].
  exists w'. split; [exact Hw'|].
  assert (w' = world_of (sendMessage t0 t1 query post w)) as ->
    by (unfold sendMessage; by rewrite Hw').
  unfold sendMessage. rewrite sendMessage_resume_messages.
  split_and!; try done.
  - cbn [sendMessage_begin update_store store setLoading with_isLoading
         addMessage with_messages messages].
    rewrite <- app_assoc. by destruct post as [[r|]|].
  - by destruct post as [[r|]|].
Qed.

(** X9. A response replaces the chart only when it brings one: after the
    resumed half of [sendMessage] the chart is the one of the response, or
    the chart from before when the response has none or cannot be read;
    a response never clears the chart. *)
Theorem sendMessage_chart now result w :
  let after := currentChart (store (world_of (sendMessage_resume now result w))) in
  (∀ response c, result = Fulfilled (Json response) →
     ChatResponse.chart response = Some c → after = Some c) ∧
  (∀ response, result = Fulfilled (Json response) →
     ChatResponse.chart response = None → after = currentChart (store w)) ∧
  (result = Fulfilled Unreadable ∨ result = Rejected →
     after = currentChart (store w)) ∧
  (is_Some (currentChart (store w)) → is_Some after).
Proof.
  intros after. subst after. rewrite sendMessage_resume_currentChart.
  split_and!.
  - by intros response c -> ->.
  - by intros response -> ->.
  - by intros [-> | ->].
  - intros Hc. destruct result as [[response|]|]; try done.
    by destruct (ChatResponse.chart response).
Qed.

Lemma sendMessage_chart_witness :
  let w := update_store (setChart (Some sample_chart)) (initialWorld 0) in
  currentChart (store (world_of
    (sendMessage_resume 1 (Fulfilled (Json (respond_with_text "done"))) w))) =
  Some sample_chart.
Proof.
  intros w.
  exact (proj1 (proj2 (sendMessage_chart 1
           (Fulfilled (Json (respond_with_text "done"))) w))
         (respond_with_text "done") eq_refl eq_refl).
Defined.

(** ** The layer list and the other operations *)

(** X10. Only the five layer actions and a response that carries
    [map_layers] change the layer list: every other operation (view, chat,
    chart, basemap, panel and map-action operations, the first half of
    [sendMessage], a rejected or unreadable result, a response without
    [map_layers]) leaves it as it is. *)
Theorem layers_frame op w :
  writes_layers op = false → layers (store (step w op)) = layers (store w).
Proof.
  intros Hop. destruct op; cbn [step]; try done.
  - apply w_setMapAction_layers.
  - by rewrite w_clearMapAction_store.
  - rewrite sendMessage_resume_layers.
    destruct result as [[response|]|]; try done. simpl in Hop.
    apply bool_decide_eq_false in Hop.
    destruct (ChatResponse.map_layers response); [|done].
    by destruct Hop.
Qed.

Lemma layers_frame_witness :
  let w := update_store (addLayer (toLayer {|
      WireLayer.id := "rivers"; WireLayer.type := "line";
      WireLayer.source := JNull; WireLayer.paint := None |})) (initialWorld 0) in
  let op := OSendMessageResume 1 (Fulfilled (Json (respond_with_text "done"))) in
  layers (store (step w op)) = layers (store w).
Proof.
  intros w op. apply (layers_frame op w). reflexivity.
Defined.

(** ** The camera log and the slot *)

Lemma handleMapAction_flags action w :
  mapMounted (handleMapAction action w) = mapMounted w ∧
  subscribed (handleMapAction action w) = subscribed w.
Proof.
  unfold handleMapAction. destruct action as [a|]; [|done].
  repeat (case_match; try done).
Qed.

(** The step of a proof that an operation issues no command. *)
Ltac no_command :=
  exists []; rewrite app_nil_r; split; [done|simpl; lia].

Lemma handleMapAction_camera action w :
  ∃ cmds : list CameraCommand,
    camera (handleMapAction action w) = camera w ++ cmds ∧ (length cmds ≤ 1)%nat.
Proof.
  unfold handleMapAction. destruct action as [a|]; [|no_command].
  repeat case_match;
    try no_command;
    (eexists [_]; split; [reflexivity|simpl; lia]).
Qed.

Lemma w_setMapAction_camera action w :
  ∃ cmds : list CameraCommand,
    camera (w_setMapAction action w) = camera w ++ cmds ∧
    (length cmds ≤ match action with Some _ => 1 | None => 0 end)%nat.
Proof.
  unfold w_setMapAction. case_match.
  - destruct action as [a|]; [|no_command].
    cbn [pendingMapAction_listener].
    destruct (handleMapAction_camera (Some a)
                (update_store (setMapAction (Some a)) w)) as (cmds & Hc & Hlen).
    exists cmds. split; [|done]. by rewrite camera_update_store, Hc.
  - exists []. rewrite app_nil_r. split; [done|]. destruct action; simpl; lia.
Qed.

Lemma w_setMapAction_subscribed action w :
  subscribed (w_setMapAction action w) = subscribed w.
Proof.
  unfold w_setMapAction. case_match; [|done].
  destruct action as [a|]; [|done]. cbn [pendingMapAction_listener].
  destruct (handleMapAction_flags (Some a) (update_store (setMapAction (Some a)) w))
    as [_ Hs]. exact Hs.
Qed.

Lemma step_camera op w :
  ∃ cmds : list CameraCommand,
    camera (step w op) = camera w ++ cmds ∧
    (length cmds ≤ if enqueues op then 1 else 0)%nat.
Proof.
  destruct op; cbn [step enqueues];
    try no_command.
  - destruct (w_setMapAction_camera action w) as (cmds & ? & ?).
    exists cmds. by destruct action.
  - exists []. rewrite app_nil_r. split; [|simpl; lia].
    unfold w_clearMapAction. by case_match.
  - unfold sendMessage_resume. rewrite world_of_finally, camera_update_store.
    destruct result as [[response|]|];
      try no_command.
    unfold sendMessage_try. cbn [try_catch world_of].
    destruct (ChatResponse.map_action response) as [a|].
    + destruct (w_setMapAction_camera (Some a)
        (match ChatResponse.chart response with
         | Some c => update_store (setChart (Some c))
             (match ChatResponse.map_layers response with
              | Some ls => addLayers ls (update_store clearLayers
                  (update_store (addMessage now (assistant_message response)) w))
              | None => update_store (addMessage now (assistant_message response)) w
              end)
         | None =>
             match ChatResponse.map_layers response with
             | Some ls => addLayers ls (update_store clearLayers
                 (update_store (addMessage now (assistant_message response)) w))
             | None => update_store (addMessage now (assistant_message response)) w
             end
         end)) as (cmds & Hc & Hlen).
      exists cmds. split; [|done]. rewrite Hc. f_equal.
      destruct (ChatResponse.chart response), (ChatResponse.map_layers response);
        rewrite ?addLayers_store; done.
    + exists []. rewrite app_nil_r. split; [|simpl; lia].
      destruct (ChatResponse.chart response), (ChatResponse.map_layers response);
        rewrite ?addLayers_store; done.
Qed.

(** X11. The camera log only grows, by at most one command for each
    operation that writes a new action into the slot and by none for any
    other operation: over a run, the log of the start is a prefix of the
    log of the end and the end has at most as many more commands as the
    run has such operations. *)
Theorem camera_log_grows ops w :
  (camera w `prefix_of` camera (run ops w)) ∧
  (length (camera (run ops w)) ≤ length (camera w) + count_enqueues ops)%nat.
Proof.
  unfold run, count_enqueues. revert w.
  induction ops as [|op ops IH]; intros w; [simpl; split; [done|lia]|].
  simpl. destruct (IH (step w op)) as [Hpre Hlen].
  destruct (step_camera op w) as (cmds & Hc & Hcmds).
  rewrite Hc in *. split.
  - etrans; [|exact Hpre]. by apply prefix_app_r.
  - rewrite length_app in Hlen. rewrite filter_cons.
    destruct (decide (enqueues op = true)) as [He|He].
    + rewrite He in Hcmds. simpl. lia.
    + apply not_true_is_false in He. rewrite He in Hcmds. lia.
Qed.

Lemma sendMessage_resume_world now result w :
  subscribed (world_of (sendMessage_resume now result w)) = subscribed w ∧
  (subscribed w = true → pendingMapAction (store w) = None →
   pendingMapAction (store (world_of (sendMessage_resume now result w))) = None).
Proof.
  unfold sendMessage_resume. rewrite world_of_finally.
  destruct result as [[response|]|]; try done.
  unfold sendMessage_try. cbn [try_catch world_of].
  destruct (ChatResponse.map_action response) as [a|].
  - cbn [update_store subscribed store setLoading with_isLoading pendingMapAction].
    rewrite w_setMapAction_subscribed. split.
    + destruct (ChatResponse.chart response), (ChatResponse.map_layers response);
        rewrite ?addLayers_store; done.
    + intros Hsub Hslot. unfold w_setMapAction.
      destruct (ChatResponse.chart response), (ChatResponse.map_layers response);
        rewrite ?addLayers_store; simpl; by rewrite Hsub, Hslot.
  - destruct (ChatResponse.chart response), (ChatResponse.map_layers response);
      rewrite ?addLayers_store; done.
Qed.

(** With the observer subscribed and the slot empty, an operation other
    than unsubscribing leaves both so. *)
Lemma step_observed op w :
  op ≠ OUnsubscribe → subscribed w = true → pendingMapAction (store w) = None →
  subscribed (step w op) = true ∧ pendingMapAction (store (step w op)) = None.
Proof.
  intros Hop Hsub Hslot. destruct op; cbn [step]; try done.
  - rewrite w_setMapAction_subscribed. split; [done|].
    unfold w_setMapAction. simpl. rewrite Hsub, Hslot. by destruct action.
  - rewrite w_clearMapAction_store. split; [|done].
    unfold w_clearMapAction. by case_match.
  - destruct (sendMessage_resume_world now result w) as [-> Hs]. auto.
Qed.

(** X12. While the observer stays subscribed no action ever rests in the
    slot: from a world with the observer subscribed and the slot empty,
    after any run that does not unsubscribe (enqueuing operations and
    responses with map actions included) the slot is empty again. *)
Theorem observed_slot_stays_empty ops w :
  subscribed w = true → pendingMapAction (store w) = None →
  Forall (λ op, op ≠ OUnsubscribe) ops →
  pendingMapAction (store (run ops w)) = None ∧ subscribed (run ops w) = true.
Proof.
  intros Hsub Hslot Hops. revert w Hsub Hslot.
  induction Hops as [|op ops Hop _ IH]; intros w Hsub Hslot; [done|].
  unfold run in *. simpl.
  destruct (step_observed op w Hop Hsub Hslot) as [Hsub' Hslot']. by apply IH.
Qed.

Lemma observed_slot_stays_empty_witness :
  let w := set_mapMounted true (subscribe (initialWorld 0)) in
  let ops := [OSetMapAction (Some flyTo_Astana);
              OSendMessageBegin 1 "zoom";
              OSetMapAction (Some fitBounds_without_bounds);
              OSendMessageResume 2 Rejected] in
  pendingMapAction (store (run ops w)) = None ∧ subscribed (run ops w) = true.
Proof.
  intros w ops. apply (observed_slot_stays_empty ops w); [done|done|].
  repeat constructor; discriminate.
Defined.

(** X13. The slot holds one action: with no observer subscribed, an action
    written into it stays there and issues nothing; a second one replaces
    it; subscribing afterwards replays neither; and the next action
    written, when it is another object than the one left in the slot, is
    the only one the observer then acts on, so the replaced action and the
    one left in the slot are never executed. Writing the object left in
    the slot once more changes nothing: it stays pending and no command
    is issued. *)
Theorem unobserved_actions_are_lost a b c w :
  subscribed w = false →
  let w1 := w_setMapAction (Some a) w in
  let w2 := subscribe (w_setMapAction (Some b) w1) in
  let w3 := w_setMapAction (Some c) w2 in
  pendingMapAction (store w1) = Some a ∧ camera w1 = camera w ∧
  pendingMapAction (store w2) = Some b ∧ camera w2 = camera w ∧
  (MapAction.ref c ≠ MapAction.ref b →
     pendingMapAction (store w3) = None ∧
     camera w3 = camera (handleMapAction (Some c) w)) ∧
  (MapAction.ref c = MapAction.ref b →
     pendingMapAction (store w3) = Some c ∧ camera w3 = camera w).
Proof.
  intros Hsub w1 w2 w3. subst w1 w2 w3.
  destruct w as [s m sb cam]. simpl in Hsub. subst sb.
  unfold w_setMapAction. simpl. split_and!; try done.
  - intros Hne. rewrite bool_decide_eq_false_2 by done. simpl.
    split; [done|]. unfold handleMapAction. simpl. repeat case_match; done.
  - intros Heq. by rewrite bool_decide_eq_true_2.
Qed.

Lemma unobserved_actions_are_lost_witness :
  let w := set_mapMounted true (initialWorld 0) in
  let w3 := w_setMapAction (Some flyTo_Astana)
              (subscribe (w_setMapAction (Some fitBounds_without_bounds)
                 (w_setMapAction (Some flyTo_Astana) w))) in
  MapAction.ref flyTo_Astana ≠ MapAction.ref fitBounds_without_bounds ∧
  pendingMapAction (store w3) = None ∧ length (camera w3) = 1.
Proof.
  intros w w3.
  assert (MapAction.ref flyTo_Astana ≠ MapAction.ref fitBounds_without_bounds)
    as Hne by (simpl; lia).
  destruct (unobserved_actions_are_lost flyTo_Astana fitBounds_without_bounds
              flyTo_Astana w eq_refl) as (_ & _ & _ & _ & Hother & _).
  destruct (Hother Hne) as [Hslot Hcam].
  split_and!; [exact Hne|exact Hslot|]. subst w3. rewrite Hcam. reflexivity.
Defined.

(** * The realtime channel *)

Lemma ws_step_bounded e c :
  ChatWebSocket.maxReconnectAttempts c = 5 →
  (ChatWebSocket.reconnectAttempts c ≤ 5)%nat →
  Forall (λ d, ∃ k : nat, (1 ≤ k ≤ 5)%nat ∧ d = (2000 * Z.of_nat k)%Z)
    (ChatWebSocket.timers c) →
  ChatWebSocket.maxReconnectAttempts (ws_step c e) = 5 ∧
  (ChatWebSocket.reconnectAttempts (ws_step c e) ≤ 5)%nat ∧
  Forall (λ d, ∃ k : nat, (1 ≤ k ≤ 5)%nat ∧ d = (2000 * Z.of_nat k)%Z)
    (ChatWebSocket.timers (ws_step c e)).
Proof.
  intros Hmax Hle Ht. destruct e; cbn [ws_step].
  - done.
  - split_and!; [done|simpl; lia|done].
  - unfold ws_onclose, attemptReconnect. case_match; [|done].
    apply andb_true_iff in H as [Hlt%bool_decide_eq_true _]. rewrite Hmax in Hlt.
    simpl. split_and!; [done|lia|].
    apply Forall_app. split; [done|]. constructor; [|constructor].
    exists (S (ChatWebSocket.reconnectAttempts c)). split; [lia|done].
  - unfold ws_timer. by case_match.
  - unfold ws_disconnect. by case_match.
Qed.

(** X14. Reconnection is bounded: in every state the channel object can
    reach, [reconnectAttempts] is at most 5, and every reconnection it ever
    scheduled has a delay of 2000 ms times an attempt number from 1 to 5,
    so never more than 10 seconds. *)
Theorem reconnect_attempts_bounded es :
  let c := ws_run es newChatWebSocket in
  (ChatWebSocket.reconnectAttempts c ≤ 5)%nat ∧
  Forall (λ d, ∃ k : nat, (1 ≤ k ≤ 5)%nat ∧ d = (2000 * Z.of_nat k)%Z)
    (ChatWebSocket.timers c) ∧
  Forall (λ d, (2000 ≤ d ≤ 10000)%Z) (ChatWebSocket.timers c).
Proof.
  intros c.
  assert (ChatWebSocket.maxReconnectAttempts c = 5 ∧
          (ChatWebSocket.reconnectAttempts c ≤ 5)%nat ∧
          Forall (λ d, ∃ k : nat, (1 ≤ k ≤ 5)%nat ∧ d = (2000 * Z.of_nat k)%Z)
            (ChatWebSocket.timers c)) as (_ & Hle & Ht).
  { subst c. unfold ws_run.
    assert (∀ c0, ChatWebSocket.maxReconnectAttempts c0 = 5 →
      (ChatWebSocket.reconnectAttempts c0 ≤ 5)%nat →
      Forall (λ d, ∃ k : nat, (1 ≤ k ≤ 5)%nat ∧ d = (2000 * Z.of_nat k)%Z)
        (ChatWebSocket.timers c0) →
      ChatWebSocket.maxReconnectAttempts (foldl ws_step c0 es) = 5 ∧
      (ChatWebSocket.reconnectAttempts (foldl ws_step c0 es) ≤ 5)%nat ∧
      Forall (λ d, ∃ k : nat, (1 ≤ k ≤ 5)%nat ∧ d = (2000 * Z.of_nat k)%Z)
        (ChatWebSocket.timers (foldl ws_step c0 es))) as H.
    { induction es as [|e es IH]; intros c0 H1 H2 H3; [done|].
      simpl. destruct (ws_step_bounded e c0 H1 H2 H3) as (? & ? & ?). by apply IH. }
    apply H; [done|simpl; lia|constructor]. }
  split_and!; [done|done|].
  eapply Forall_impl; [exact Ht|]. intros d (k & Hk & ->). lia.
Qed.

(** The closures of [n] sockets in a row, none having opened, while
    attempts are left. *)
Lemma ws_closes_backoff n c :
  ChatWebSocket.maxReconnectAttempts c = 5 →
  is_Some (ChatWebSocket.messageHandler c) →
  (ChatWebSocket.reconnectAttempts c + n ≤ 5)%nat →
  let c' := ws_run (replicate n WsClose) c in
  ChatWebSocket.reconnectAttempts c' = (ChatWebSocket.reconnectAttempts c + n)%nat ∧
  ChatWebSocket.timers c' =
    ChatWebSocket.timers c ++
      ((λ k, (2000 * Z.of_nat k)%Z) <$> seq (S (ChatWebSocket.reconnectAttempts c)) n) ∧
  ChatWebSocket.messageHandler c' = ChatWebSocket.messageHandler c ∧
  ChatWebSocket.maxReconnectAttempts c' = 5.
Proof.
  revert c. induction n as [|n IH]; intros c Hmax Hh Hle c'; subst c'.
  - simpl. rewrite app_nil_r. split_and!; [lia|done|done|done].
  - unfold ws_run in *. cbn [replicate foldl ws_step].
    unfold ws_onclose, attemptReconnect.
    rewrite Hmax, (bool_decide_eq_true_2 _ Hh), andb_true_r.
    rewrite bool_decide_eq_true_2 by lia.
    match goal with |- context [foldl ws_step ?c1 _] =>
      destruct (IH c1) as (H1 & H2 & H3 & H4); [done|done|simpl; lia|] end.
    rewrite H1, H2, H3, H4. simpl.
    split_and!; [lia| |done|done]. by rewrite <- app_assoc.
Qed.

Lemma ws_run_app es1 es2 c : ws_run (es1 ++ es2) c = ws_run es2 (ws_run es1 c).
Proof. apply foldl_app. Qed.

(** Once the attempts are used up, closures do nothing. *)
Lemma ws_closes_exhausted n c :
  (ChatWebSocket.maxReconnectAttempts c ≤ ChatWebSocket.reconnectAttempts c)%nat →
  ws_run (replicate n WsClose) c = c.
Proof.
  intros Hle. unfold ws_run. induction n as [|n IH]; [done|].
  cbn [replicate foldl ws_step]. unfold ws_onclose, attemptReconnect.
  rewrite bool_decide_eq_false_2 by lia. exact IH.
Qed.

(** X15. Backoff of the reconnection: after a handler was connected and
    with the attempt counter at zero, [n] socket closures in a row (no
    socket having opened in between) schedule exactly the reconnections
    with delays 2000, 4000, ... up to the fifth, 10000 ms: the counter
    stands at the smaller of [n] and 5, and from the sixth closure on
    nothing more is scheduled. *)
Theorem reconnect_backoff n c :
  ChatWebSocket.maxReconnectAttempts c = 5 →
  is_Some (ChatWebSocket.messageHandler c) →
  ChatWebSocket.reconnectAttempts c = 0%nat →
  let c' := ws_run (replicate n WsClose) c in
  ChatWebSocket.reconnectAttempts c' = n `min` 5 ∧
  ChatWebSocket.timers c' =
    ChatWebSocket.timers c ++ ((λ k, (2000 * Z.of_nat k)%Z) <$> seq 1 (n `min` 5)).
Proof.
  intros Hmax Hh Ha c'. subst c'.
  assert (replicate n WsClose =
          replicate (n `min` 5) WsClose ++ replicate (n - n `min` 5) WsClose) as ->.
  { rewrite <- replicate_add. f_equal. lia. }
  rewrite ws_run_app.
  destruct (ws_closes_backoff (n `min` 5) c Hmax Hh) as (H1 & H2 & H3 & H4); [lia|].
  destruct (decide (n ≤ 5)%nat) as [Hn|Hn].
  - replace (n - n `min` 5)%nat with 0%nat by lia.
    cbn [replicate ws_run foldl]. by rewrite H1, H2, Ha.
  - rewrite ws_closes_exhausted by (rewrite H1, H4; lia).
    by rewrite H1, H2, Ha.
Qed.

Lemma reconnect_backoff_witness :
  let c := ws_connect 0 true newChatWebSocket in
  let c' := ws_run (replicate 7 WsClose) c in
  ChatWebSocket.reconnectAttempts c' = 5%nat ∧
  ChatWebSocket.timers c' = [2000; 4000; 6000; 8000; 10000]%Z.
Proof.
  intros c.
  apply (reconnect_backoff 7 c); [reflexivity|by eexists|reflexivity].
Defined.

(** X16. Only an opened socket resets the counter, and [disconnect] does
    not stop reconnection: [onopen] sets [reconnectAttempts] to 0; [connect]
    and [disconnect] leave it as it is; no event ever takes the handler
    away once it is set, so the closure that follows a [disconnect] still
    schedules a reconnection while attempts are left. *)
Theorem reconnect_reset_and_disconnect c :
  ChatWebSocket.reconnectAttempts (ws_onopen c) = 0%nat ∧
  (∀ h ok, ChatWebSocket.reconnectAttempts (ws_connect h ok c) =
           ChatWebSocket.reconnectAttempts c) ∧
  ChatWebSocket.reconnectAttempts (ws_disconnect c) =
    ChatWebSocket.reconnectAttempts c ∧
  ChatWebSocket.ws (ws_disconnect c) = None ∧
  (∀ es, is_Some (ChatWebSocket.messageHandler c) →
         is_Some (ChatWebSocket.messageHandler (ws_run es c))) ∧
  (is_Some (ChatWebSocket.messageHandler c) →
   (ChatWebSocket.reconnectAttempts c < ChatWebSocket.maxReconnectAttempts c)%nat →
   ChatWebSocket.timers (ws_onclose (ws_disconnect c)) =
     ChatWebSocket.timers c ++
       [(2000 * Z.of_nat (S (ChatWebSocket.reconnectAttempts c)))%Z]).
Proof.
  split_and!.
  - done.
  - done.
  - unfold ws_disconnect. by case_match.
  - unfold ws_disconnect. by case_match.
  - intros es. unfold ws_run. revert c.
    induction es as [|e es IH]; intros c Hh; [done|].
    simpl. apply IH. destruct e; cbn [ws_step]; try done.
    + unfold ws_onclose, attemptReconnect. by case_match.
    + unfold ws_timer. by case_match.
    + unfold ws_disconnect. by case_match.
  - intros Hh Hlt. unfold ws_onclose, attemptReconnect, ws_disconnect.
    destruct (ChatWebSocket.ws c); simpl;
      by rewrite (bool_decide_eq_true_2 _ Hlt), (bool_decide_eq_true_2 _ Hh).
Qed.

Lemma reconnect_reset_and_disconnect_witness :
  let c := ws_onopen (ws_connect 0 true newChatWebSocket) in
  ChatWebSocket.ws (ws_disconnect c) = None ∧
  ChatWebSocket.timers (ws_onclose (ws_disconnect c)) = [2000%Z] ∧
  ChatWebSocket.ws (ws_timer true (ws_onclose (ws_disconnect c))) = Some 1%nat.
Proof.
  intros c.
  destruct (reconnect_reset_and_disconnect c) as (_ & _ & _ & Hws & _ & Hclose).
  split_and!; [exact Hws| |reflexivity].
  apply Hclose; [by eexists|simpl; lia].
Defined.

(** * The map surface *)

(** X17. The kind of a clicked feature is decided in this order: glacier
    when its [type] is the string [glacier] or it has a truthy
    [glacier_type] (whatever else it has, an explicit other [type]
    included); else river on [type] [river] or a truthy [discharge]; else
    lake on [type] [lake] or a truthy [lake_type]; else city on a truthy
    [population] (a [type] of [city] is not looked at); else generic. *)
Theorem classify_priority props :
  let typed t := is_string (field props "type") t = true in
  let has k := truthy_opt (field props k) = true in
  let as_glacier := typed "glacier" ∨ has "glacier_type" in
  let as_river := typed "river" ∨ has "discharge" in
  let as_lake := typed "lake" ∨ has "lake_type" in
  (classify props = glacier ↔ as_glacier) ∧
  (classify props = river ↔ ¬ as_glacier ∧ as_river) ∧
  (classify props = lake ↔ ¬ as_glacier ∧ ¬ as_river ∧ as_lake) ∧
  (classify props = city ↔
     ¬ as_glacier ∧ ¬ as_river ∧ ¬ as_lake ∧ has "population") ∧
  (classify props = generic ↔
     ¬ as_glacier ∧ ¬ as_river ∧ ¬ as_lake ∧ ¬ has "population").
Proof.
  intros typed has as_glacier as_river as_lake.
  subst as_glacier as_river as_lake typed has. unfold classify. cbv beta.
  destruct (is_string (field props "type") "glacier"),
    (truthy_opt (field props "glacier_type")),
    (is_string (field props "type") "river"),
    (truthy_opt (field props "discharge")),
    (is_string (field props "type") "lake"),
    (truthy_opt (field props "lake_type")),
    (truthy_opt (field props "population"));
    cbn; intuition congruence.
Qed.

(** X18. A click on no feature changes nothing, so it does not close an
    open popup; a click on features opens one popup, for the first of them,
    at the place of the click and with all its properties (none, when the
    feature has none), replacing the popup that was open and leaving the
    cursor and hover state alone; closing leaves no popup, and closing
    again changes nothing more. *)
Theorem onClick_popup evt ui :
  (MouseEvent.features evt = None ∨ MouseEvent.features evt = Some [] →
   onClick evt ui = ui) ∧
  (∀ feature others, MouseEvent.features evt = Some (feature :: others) →
   let props := or_else (Feature.properties feature) (JObj []) in
   popupData (onClick evt ui) =
     Some (PopupData.mk (classify props)
             (MouseEvent.lng evt, MouseEvent.lat evt) props) ∧
   (Feature.properties feature = None → props = JObj []) ∧
   cursorPosition (onClick evt ui) = cursorPosition ui ∧
   hoveredFeature (onClick evt ui) = hoveredFeature ui ∧
   onClick evt (closePopup ui) = onClick evt ui) ∧
  popupData (closePopup ui) = None ∧
  closePopup (closePopup ui) = closePopup ui.
Proof.
  split_and!; try done.
  - by intros [H|H]; unfold onClick; rewrite H.
  - intros feature others H props. unfold onClick. rewrite H.
    split_and!; try done. by intros Hp; subst props; rewrite Hp.
Qed.

Lemma onClick_popup_witness :
  let evt := MouseEvent.mk 76.9%Q 43.2%Q (Some []) in
  let ui := mkMapUi None None
    (Some (PopupData.mk lake (60%Q, 45%Q) (JObj [("name", JStr "Aral")]))) in
  onClick evt ui = ui.
Proof.
  intros evt ui. apply (proj1 (onClick_popup evt ui)). by right.
Defined.

(** X19. Moving the pointer always records its position and never touches
    the popup. Over no feature the hover name is reset; over a feature
    with a truthy [name] the name becomes the hover name; over a feature
    without one (no properties, no [name], an empty [name]) the hover name
    is left as it was. *)
Theorem onMouseMove_hover evt ui :
  cursorPosition (onMouseMove evt ui) = Some (MouseEvent.lng evt, MouseEvent.lat evt) ∧
  popupData (onMouseMove evt ui) = popupData ui ∧
  (MouseEvent.features evt = None ∨ MouseEvent.features evt = Some [] →
   hoveredFeature (onMouseMove evt ui) = None) ∧
  (∀ feature others, MouseEvent.features evt = Some (feature :: others) →
   hoveredFeature (onMouseMove evt ui) =
     if truthy_opt (feature_name feature) then feature_name feature
     else hoveredFeature ui).
Proof.
  unfold onMouseMove. split_and!.
  - repeat case_match; done.
  - repeat case_match; done.
  - by intros [-> | ->].
  - intros feature others ->. destruct (feature_name feature) as [name|]; [|done].
    simpl. by destruct (truthy name).
Qed.

Lemma onMouseMove_hover_witness :
  let evt := MouseEvent.mk 76.9%Q 43.2%Q (Some [Feature.mk (Some (JObj [("name", JStr EmptyString)]))]) in
  let ui := mkMapUi None (Some (JStr "Almaty")) None in
  hoveredFeature (onMouseMove evt ui) = Some (JStr "Almaty").
Proof.
  intros evt ui.
  exact (proj2 (proj2 (proj2 (onMouseMove_hover evt ui))) _ _ eq_refl).
Defined.

(** ** Rendering *)

Lemma run_NoDup ops w :
  NoDup (layer_ids (layers (store w))) →
  NoDup (layer_ids (layers (store (run ops w)))).
Proof.
  unfold run. revert w. induction ops as [|op ops IH]; intros w Hw; [done|].
  simpl. by apply IH, step_NoDup.
Qed.

Lemma renderLayer_visible layer :
  MapLayer.visible layer = true →
  ∃ children, renderLayer layer = Some (source_of layer children) ∧ children ≠ [].
Proof.
  intros Hv. unfold renderLayer. rewrite Hv. simpl.
  repeat case_decide; eexists; (split; [reflexivity|done]).
Qed.

Lemma renderLayers_sources ls :
  ∃ srcs, renderLayers ls = Some <$> srcs ∧
          SourceElement.id <$> srcs =
            layer_ids (filter (λ l, MapLayer.visible l = true) ls) ∧
          SourceElement.key <$> srcs = SourceElement.id <$> srcs.
Proof.
  unfold renderLayers.
  induction ls as [|l ls (srcs & IH1 & IH2 & IH3)]; [by exists []|].
  rewrite filter_cons. destruct (decide (MapLayer.visible l = true)) as [Hv|Hv].
  - destruct (renderLayer_visible l Hv) as (children & Hr & _).
    exists (source_of l children :: srcs). split_and!.
    + rewrite !fmap_cons. by rewrite Hr, IH1.
    + unfold layer_ids in *. rewrite !fmap_cons. by rewrite IH2.
    + rewrite !fmap_cons. by rewrite IH3.
  - by exists srcs.
Qed.

(** X20. Hidden layers are not drawn and every visible layer is: a layer
    renders to nothing exactly when it is not visible; the map gets one
    source element for each visible layer of the store, in the order of
    the store, with the id of the layer as its id and key; and in every
    world reached from a fresh store these source ids are pairwise
    distinct. *)
Theorem rendered_sources now ops layer :
  (renderLayer layer = None ↔ MapLayer.visible layer = false) ∧
  let ls := layers (store (run ops (initialWorld now))) in
  ∃ srcs, renderLayers ls = Some <$> srcs ∧
          SourceElement.id <$> srcs =
            layer_ids (filter (λ l, MapLayer.visible l = true) ls) ∧
          SourceElement.key <$> srcs = SourceElement.id <$> srcs ∧
          NoDup (SourceElement.id <$> srcs).
Proof.
  split.
  - destruct (MapLayer.visible layer) eqn:Hv.
    + destruct (renderLayer_visible layer Hv) as (children & -> & _). done.
    + unfold renderLayer. by rewrite Hv.
  - intros ls. destruct (renderLayers_sources ls) as (srcs & H1 & H2 & H3).
    exists srcs. split_and!; [done|done|done|].
    rewrite H2. apply layer_ids_filter. subst ls. apply run_NoDup. constructor.
Qed.

(** X21. The primitives of a visible layer depend on its type only
    through four special cases: [fill-extrusion] is drawn as one extrusion,
    [heatmap] as one heat surface, [circle] as circles with a label symbol,
    [line] as one line, and every other type ([geojson], [raster],
    [vector-tile], [3d-terrain], [deck], or any unknown string) as a fill
    with an outline line; their ids are the layer id with a fixed suffix. *)
Theorem renderLayer_dispatch layer :
  MapLayer.visible layer = true →
  let i := MapLayer.id layer in
  let t := MapLayer.type layer in
  (t = "fill-extrusion" →
     primitives_of layer = [((i ++ "-extrusion")%string, "fill-extrusion")]) ∧
  (t = "heatmap" → primitives_of layer = [((i ++ "-heat")%string, "heatmap")]) ∧
  (t = "circle" →
     primitives_of layer =
       [((i ++ "-circle")%string, "circle"); ((i ++ "-label")%string, "symbol")]) ∧
  (t = "line" → primitives_of layer = [((i ++ "-line")%string, "line")]) ∧
  (t ∉ ["fill-extrusion"; "heatmap"; "circle"; "line"] →
     primitives_of layer =
       [((i ++ "-fill")%string, "fill"); ((i ++ "-outline")%string, "line")]).
Proof.
  intros Hv i t. subst i t. unfold primitives_of, renderLayer. rewrite Hv. simpl.
  split_and!.
  - by intros ->.
  - by intros ->.
  - by intros ->.
  - by intros ->.
  - intros Hnot. rewrite !not_elem_of_cons in Hnot.
    destruct Hnot as (? & ? & ? & ? & _). by rewrite !decide_False.
Qed.

Lemma renderLayer_dispatch_witness :
  let layer := toLayer {|
      WireLayer.id := "dem"; WireLayer.type := "3d-terrain";
      WireLayer.source := JNull; WireLayer.paint := None |} in
  primitives_of layer = [("dem-fill", "fill"); ("dem-outline", "line")].
Proof.
  intros layer.
  apply (proj2 (proj2 (proj2 (proj2 (renderLayer_dispatch layer eq_refl))))).
  vm_compute. intros H.
  repeat (apply elem_of_cons in H as [H|H]; [discriminate|]).
  by apply elem_of_nil in H.
Defined.

(** X22. What the opacity of a layer does to its drawing. A circle or a
    line layer is painted with its opacity, except that opacity 0 is
    painted as 1: setting the opacity of such a layer to 0 in the store
    leaves it fully opaque on the map. A heatmap or a fill-extrusion layer
    is drawn the same whatever its opacity. For the other types the
    outline gets the opacity as it is, 0 included, and the fill opacity is
    the product of its base value (0.3 by default) with the opacity. *)
Theorem renderLayer_opacity layer v :
  MapLayer.visible layer = true →
  let t := MapLayer.type layer in
  (t = "circle" →
     ("circle-opacity",
      Plain (JNum (if falsy (MapLayer.opacity layer) then 1%Q
                   else MapLayer.opacity layer))) ∈ paints_of layer ∧
     ("circle-opacity", Plain (JNum 1%Q)) ∈ paints_of (put_opacity 0%Q layer)) ∧
  (t = "line" →
     ("line-opacity",
      Plain (JNum (if falsy (MapLayer.opacity layer) then 1%Q
                   else MapLayer.opacity layer))) ∈ paints_of layer ∧
     ("line-opacity", Plain (JNum 1%Q)) ∈ paints_of (put_opacity 0%Q layer)) ∧
  (t = "heatmap" ∨ t = "fill-extrusion" →
     renderLayer (put_opacity v layer) = renderLayer layer) ∧
  (t ∉ ["fill-extrusion"; "heatmap"; "circle"; "line"] →
     ("line-opacity", Plain (JNum (MapLayer.opacity layer))) ∈ paints_of layer ∧
     ("fill-opacity",
      Product (or_else (paint_of layer "fill-opacity") (JNum 0.3%Q))
        (MapLayer.opacity layer)) ∈ paints_of layer).
Proof.
  intros Hv t. subst t. unfold paints_of, renderLayer. simpl. rewrite Hv. simpl.
  split_and!.
  - intros ->. simpl. split; set_solver.
  - intros ->. simpl. split; set_solver.
  - by intros [-> | ->].
  - intros Hnot. rewrite !not_elem_of_cons in Hnot.
    destruct Hnot as (? & ? & ? & ? & _). rewrite !decide_False by done.
    simpl. split; set_solver.
Qed.

Lemma renderLayer_opacity_witness :
  let layer := toLayer {|
      WireLayer.id := "stations"; WireLayer.type := "circle";
      WireLayer.source := JNull; WireLayer.paint := None |} in
  ("circle-opacity", Plain (JNum 1%Q)) ∈ paints_of (put_opacity 0%Q layer).
Proof.
  intros layer.
  exact (proj2 (proj1 (renderLayer_opacity layer 0%Q eq_refl) eq_refl)).
Defined.

Lemma last_char_app s c t :
  last_char (s ++ String c t) = last_char (String c t).
Proof.
  induction s as [|a s IH]; [done|].
  change (last_char (String a (s ++ String c t)) = last_char (String c t)).
  rewrite <- IH. simpl. by destruct s.
Qed.

(** X23. A heatmap cannot be clicked: the primitive a heatmap layer is
    drawn with is never among the interactive layer ids of the map,
    whatever the layers of the store are called; for a visible layer of
    the store of any other type the first primitive it is drawn with is
    among them. *)
Theorem heatmap_not_interactive layer ls :
  MapLayer.visible layer = true →
  (MapLayer.type layer = "heatmap" →
     ∀ p, p ∈ primitives_of layer → p.1 ∉ interactiveLayerIds ls) ∧
  (MapLayer.type layer ≠ "heatmap" → layer ∈ ls →
     ∃ p rest, primitives_of layer = p :: rest ∧ p.1 ∈ interactiveLayerIds ls).
Proof.
  intros Hv. split.
  - intros Ht p Hp. unfold primitives_of, renderLayer in Hp.
    rewrite Hv, Ht in Hp. simpl in Hp. apply list_elem_of_singleton in Hp as ->.
    simpl. unfold interactiveLayerIds. rewrite list_elem_of_bind.
    intros (l & Hin & _).
    repeat (apply elem_of_cons in Hin as [Hin|Hin];
            [apply (f_equal last_char) in Hin;
             rewrite !last_char_app in Hin; discriminate|]).
    by apply elem_of_nil in Hin.
  - intros Ht Hin. unfold primitives_of, renderLayer. rewrite Hv. simpl.
    assert (∀ suffix,
      suffix ∈ ["-fill"; "-circle"; "-extrusion"; "-line"] →
      (MapLayer.id layer ++ suffix)%string ∈ interactiveLayerIds ls) as Hi.
    { intros suffix Hs. unfold interactiveLayerIds. apply list_elem_of_bind.
      exists layer. split; [|done].
      repeat (apply elem_of_cons in Hs as [-> |Hs]; [set_solver|]).
      by apply elem_of_nil in Hs. }
    repeat case_decide; try done; eexists _, _; (split; [reflexivity|]);
      apply Hi; set_solver.
Qed.

Lemma heatmap_not_interactive_witness :
  let layer := toLayer {|
      WireLayer.id := "smog"; WireLayer.type := "heatmap";
      WireLayer.source := JNull; WireLayer.paint := None |} in
  ("smog-heat", "heatmap") ∈ primitives_of layer ∧
  "smog-heat" ∉ interactiveLayerIds [layer].
Proof.
  intros layer.
  assert (("smog-heat", "heatmap") ∈ primitives_of layer) as Hp
    by (vm_compute; apply list_elem_of_here).
  split; [exact Hp|].
  exact (proj1 (heatmap_not_interactive layer [layer] eq_refl) eq_refl _ Hp).
Defined.

(** ** More on the store *)

(** X24. Two calls of [toggle3D] restore the 3D flag and every field of
    the store except the pitch, which ends at the value coupled with the
    flag (0 with 3D off, 45 with 3D on): the store is the one from before
    exactly when its pitch already had that value, so a view tilted by
    hand loses its pitch. *)
Theorem toggle3D_twice s :
  let coupled := if is3DEnabled s then 45%Q else 0%Q in
  toggle3D (toggle3D s) = with_viewState (put_pitch coupled (viewState s)) s ∧
  (toggle3D (toggle3D s) = s ↔ MapViewState.pitch (viewState s) = coupled).
Proof.
  intros coupled. subst coupled.
  destruct s as [[lo la zo pi be] ls b [|] a ms ld c sb pn sc sh];
    (split; [done|]); unfold toggle3D, with_viewState, with_is3DEnabled, put_pitch;
    simpl; (split; [intros H; by injection H|by intros ->]).
Qed.

(** X25. The id [addMessage] gives a message is made from the clock alone:
    two messages get the same id exactly when they were added in the same
    millisecond, whatever their content, so the ids of the log are distinct
    only as far as the times of the additions are. *)
Theorem message_id_from_clock t t' m m' :
  ChatMessage.id (stamp t m) = ChatMessage.id (stamp t' m') ↔ t = t'.
Proof.
  simpl. split; [|by intros ->].
  intros H. injection H as H. change (pretty t = pretty t') in H.
  by apply (inj pretty) in H.
Qed.
